(** * peerslave: the FieldTrip peer in slave mode

    A shallow embedding of [peer/src/peerslave.c].  The file has one large
    [main]; the embedding follows its sections in source order:
    - the command line and the help flag,
    - the supervisor that forks and restarts the children,
    - the slave loop: engine start, job execution, the result-send
      protocol with its [cleanup] label, and the return to idle.

    Everything the slave loop gets from outside (the clock, the MATLAB
    engine, the mx library, the sockets, the peer table kept by the
    discover and expire threads) is read from an explicit record, one per
    iteration, so that every function below is total and can be run. *)

From stdpp Require Import base list strings.
From Stdlib Require Import ZArith Lia Strings.Byte Strings.Ascii.

Open Scope Z_scope.
Set Warnings "-register-all".

(** ** Integer types *)

(** An unsigned [w]-bit value: arithmetic wraps modulo [2^w]. *)
Definition wrap (w x : Z) : Z := x mod 2 ^ w.

(** Storing a value in an [int]: two's complement on 32 bits. *)
Definition to_int (x : Z) : Z := (x + 2 ^ 31) mod 2 ^ 32 - 2 ^ 31.

Definition INT_MAX : Z := 2 ^ 31 - 1.

(** [unsigned int] (the type of [peerid], [jobid], and of the identifiers
    they are copied from). *)
Definition to_uint (x : Z) : Z := wrap 32 x.

(** The resource fields ([timreq], [timavail], ...) are printed with [%lu]
    in the source: they are unsigned 64-bit values. *)
Definition RESOURCE_BITS : Z := 64.

(** ** Constants of the source *)

Definition ENGINETIMEOUT : Z := 180.
Definition ZOMBIETIMEOUT : Z := 900.
Definition STARTCMD : string := "matlab -nosplash".
Definition sizeof_int : Z := 4.

(** ** The registry records *)

Inductive status_t := STATUS_IDLE | STATUS_BUSY | STATUS_ZOMBIE.

Record current_t := {
  cur_hostid : Z;
  cur_jobid : Z;
  cur_name : string;
  cur_user : string;
  cur_group : string;
  cur_timreq : Z;
  cur_memreq : Z;
  cur_cpureq : Z
}.

(** [bzero(&(host->current), sizeof(current_t))] *)
Definition current_zero : current_t :=
  {| cur_hostid := 0; cur_jobid := 0; cur_name := ""; cur_user := "";
     cur_group := ""; cur_timreq := 0; cur_memreq := 0; cur_cpureq := 0 |}.

Record hostdef_t := {
  h_id : Z;
  h_name : string;
  h_user : string;
  h_group : string;
  h_socket : string;
  h_port : Z;
  h_status : status_t;
  h_timavail : Z;
  h_memavail : Z;
  h_cpuavail : Z;
  h_current : current_t
}.

Record jobdef_t := {
  d_version : Z;
  d_id : Z;
  d_memreq : Z;
  d_cpureq : Z;
  d_timreq : Z;
  d_argsize : Z;
  d_optsize : Z
}.

(** One entry of [joblist]: the submitter, the job definition and the two
    serialized blobs. *)
Record joblist_t := {
  job_host : hostdef_t;
  job_job : jobdef_t;
  job_arg : list byte;
  job_opt : list byte
}.

(** One entry of [peerlist]. *)
Record peerlist_t := {
  peer_host : hostdef_t;
  peer_ipaddr : string
}.

Definition set_h_id (v : Z) (h : hostdef_t) : hostdef_t :=
  {| h_id := v; h_name := h_name h; h_user := h_user h; h_group := h_group h;
     h_socket := h_socket h; h_port := h_port h; h_status := h_status h;
     h_timavail := h_timavail h; h_memavail := h_memavail h;
     h_cpuavail := h_cpuavail h; h_current := h_current h |}.

(** The two assignments the slave loop always makes together:
    [host->status = st] and the new content of [host->current]. *)
Definition set_status_current (st : status_t) (c : current_t) (h : hostdef_t)
  : hostdef_t :=
  {| h_id := h_id h; h_name := h_name h; h_user := h_user h;
     h_group := h_group h; h_socket := h_socket h; h_port := h_port h;
     h_status := st; h_timavail := h_timavail h; h_memavail := h_memavail h;
     h_cpuavail := h_cpuavail h; h_current := c |}.

(** ** MATLAB arrays

    Only what [main] builds or inspects: strings, double scalars and cell
    arrays (an empty cell is [None]); any other array is opaque and only
    its number of elements is known. *)

Inductive mxArray :=
| MxString (s : string)
| MxDouble (v : Z)
| MxCell (cells : list (option mxArray))
| MxOther (numel : nat) (tag : Z).

(** [mxGetM(a) * mxGetN(a)] *)
Definition mxNumel (a : mxArray) : nat :=
  match a with
  | MxString s => String.length s
  | MxDouble _ => 1%nat
  | MxCell cells => length cells
  | MxOther n _ => n
  end.

Definition mxCreateCellMatrix (m n : nat) : mxArray :=
  MxCell (replicate (m * n) None).

Definition mxGetCell (a : mxArray) (i : nat) : option mxArray :=
  match a with
  | MxCell cells => mjoin (cells !! i)
  | _ => None
  end.

Definition mxSetCell (a : mxArray) (i : nat) (v : option mxArray) : mxArray :=
  match a with
  | MxCell cells => MxCell (<[i:=v]> cells)
  | _ => a
  end.

Definition mxCreateString (s : string) : mxArray := MxString s.
Definition mxCreateDoubleScalar (v : Z) : mxArray := MxDouble v.

(** ** The allowance and the implicit options (lines 608-636) *)

(** [timallow = 3*job->job->timreq; if (host->timavail < timallow) timallow
    = host->timavail;] with [timallow] an [int] and the two fields unsigned
    on [w] bits: the product wraps on [w] bits and is then stored in the
    [int]; for the comparison the [int] is converted back to the unsigned
    type. *)
Definition compute_timallow_w (w timreq timavail : Z) : Z :=
  let timallow := to_int (wrap w (3 * timreq)) in
  if timavail <? wrap w timallow then to_int timavail else timallow.

Definition compute_timallow : Z -> Z -> Z := compute_timallow_w RESOURCE_BITS.

(** [for (i=0; i<n; i++) mxSetCell(options, i, mxGetCell(previous, i));] *)
Definition copy_cells (previous : mxArray) (n : nat) (options : mxArray)
  : mxArray :=
  foldl (fun opts i => mxSetCell opts i (mxGetCell previous i)) options (seq 0 n).

(** The copy of the option cell-array with the four cells for the watchdog
    of peerexec. *)
Definition inject_options (previous : mxArray) (peerid timallow : Z) : mxArray :=
  let n := mxNumel previous in
  let options := mxCreateCellMatrix 1 (n + 4) in
  let options := copy_cells previous n options in
  let options := mxSetCell options (n + 0) (Some (mxCreateString "masterid")) in
  let options := mxSetCell options (n + 1) (Some (mxCreateDoubleScalar peerid)) in
  let options := mxSetCell options (n + 2) (Some (mxCreateString "timallow")) in
  mxSetCell options (n + 3) (Some (mxCreateDoubleScalar timallow)).

(** ** What the slave loop does to the outside: the events *)

Inductive mutex :=
| mutexhost | mutexjoblist | mutexpeerlist
| mutexsmartmem | mutexsmartcpu | mutexsmartshare.

(** A message segment handed to [bufwrite]. *)
Inductive frame :=
| FHost (h : hostdef_t)
| FJobdef (d : jobdef_t)
| FData (bytes : list byte).

Inductive event :=
| Lock (m : mutex)                       (* pthread_mutex_lock *)
| Unlock (m : mutex)                     (* pthread_mutex_unlock *)
| Announce (h : hostdef_t)               (* announce_once() *)
| Jobcount                               (* jobcount() *)
| ClearJoblist                           (* clear_joblist() *)
| ThreadSleep                            (* threadsleep() *)
| EngOpen (cmd : string)
| EngClose
| EngPutVariable (name : string) (v : mxArray)
| EngEvalString (cmd : string)
| EngGetVariable (name : string)
| OpenUds (path : string)                (* open_uds_connection *)
| OpenTcp (ip : string) (port : Z)       (* open_tcp_connection *)
| CloseConnection (fd : Z)
| BufRead (fd : Z) (n handshake : Z)     (* bufread of one handshake *)
| BufWrite (fd : Z) (f : frame) (n : Z)  (* bufwrite of one segment *)
| MxDestroyArray (var : string)
| Free (var : string)
| Indeterminate (var : string)           (* a variable read before any assignment *)
| Waitpid (pid : Z)
| Fork (hostid : Z).

(** ** The variables of [main] that the slave loop uses *)

(** The registry ([host], [joblist]) and the locals of [main].  The four
    locals of the result-send protocol are declared without a value (but
    for [def]): [None] is a variable that was never assigned; for the
    pointers, [Some None] is [NULL]. *)
Record slave := {
  host : hostdef_t;
  joblist : list joblist_t;
  enginetimeout : Z;
  startcmd : string;
  matlabRunning : Z;
  matlabStart : Z;
  matlabFinished : Z;
  engineFailed : Z;
  engineAborted : Z;
  jobFailed : Z;
  jobnum : Z;
  timallow : Z;
  jobid : Z;
  peerid : Z;
  argout : option mxArray;
  options : option mxArray;
  server : option Z;
  arg : option (option (list byte));
  opt : option (option (list byte));
  def : option (option jobdef_t)
}.

Definition set_host (v : hostdef_t) (s : slave) : slave :=
  {| host := v; joblist := joblist s; enginetimeout := enginetimeout s; startcmd := startcmd s;
     matlabRunning := matlabRunning s; matlabStart := matlabStart s;
     matlabFinished := matlabFinished s; engineFailed := engineFailed s;
     engineAborted := engineAborted s; jobFailed := jobFailed s;
     jobnum := jobnum s; timallow := timallow s; jobid := jobid s;
     peerid := peerid s; argout := argout s; options := options s;
     server := server s; arg := arg s; opt := opt s; def := def s |}.

Definition set_joblist (v : list joblist_t) (s : slave) : slave :=
  {| host := host s; joblist := v; enginetimeout := enginetimeout s; startcmd := startcmd s;
     matlabRunning := matlabRunning s; matlabStart := matlabStart s;
     matlabFinished := matlabFinished s; engineFailed := engineFailed s;
     engineAborted := engineAborted s; jobFailed := jobFailed s;
     jobnum := jobnum s; timallow := timallow s; jobid := jobid s;
     peerid := peerid s; argout := argout s; options := options s;
     server := server s; arg := arg s; opt := opt s; def := def s |}.

Definition set_matlabRunning (v : Z) (s : slave) : slave :=
  {| host := host s; joblist := joblist s; enginetimeout := enginetimeout s; startcmd := startcmd s;
     matlabRunning := v; matlabStart := matlabStart s;
     matlabFinished := matlabFinished s; engineFailed := engineFailed s;
     engineAborted := engineAborted s; jobFailed := jobFailed s;
     jobnum := jobnum s; timallow := timallow s; jobid := jobid s;
     peerid := peerid s; argout := argout s; options := options s;
     server := server s; arg := arg s; opt := opt s; def := def s |}.

Definition set_matlabStart (v : Z) (s : slave) : slave :=
  {| host := host s; joblist := joblist s; enginetimeout := enginetimeout s; startcmd := startcmd s;
     matlabRunning := matlabRunning s; matlabStart := v;
     matlabFinished := matlabFinished s; engineFailed := engineFailed s;
     engineAborted := engineAborted s; jobFailed := jobFailed s;
     jobnum := jobnum s; timallow := timallow s; jobid := jobid s;
     peerid := peerid s; argout := argout s; options := options s;
     server := server s; arg := arg s; opt := opt s; def := def s |}.

Definition set_matlabFinished (v : Z) (s : slave) : slave :=
  {| host := host s; joblist := joblist s; enginetimeout := enginetimeout s; startcmd := startcmd s;
     matlabRunning := matlabRunning s; matlabStart := matlabStart s;
     matlabFinished := v; engineFailed := engineFailed s;
     engineAborted := engineAborted s; jobFailed := jobFailed s;
     jobnum := jobnum s; timallow := timallow s; jobid := jobid s;
     peerid := peerid s; argout := argout s; options := options s;
     server := server s; arg := arg s; opt := opt s; def := def s |}.

Definition set_engineFailed (v : Z) (s : slave) : slave :=
  {| host := host s; joblist := joblist s; enginetimeout := enginetimeout s; startcmd := startcmd s;
     matlabRunning := matlabRunning s; matlabStart := matlabStart s;
     matlabFinished := matlabFinished s; engineFailed := v;
     engineAborted := engineAborted s; jobFailed := jobFailed s;
     jobnum := jobnum s; timallow := timallow s; jobid := jobid s;
     peerid := peerid s; argout := argout s; options := options s;
     server := server s; arg := arg s; opt := opt s; def := def s |}.

Definition set_engineAborted (v : Z) (s : slave) : slave :=
  {| host := host s; joblist := joblist s; enginetimeout := enginetimeout s; startcmd := startcmd s;
     matlabRunning := matlabRunning s; matlabStart := matlabStart s;
     matlabFinished := matlabFinished s; engineFailed := engineFailed s;
     engineAborted := v; jobFailed := jobFailed s; jobnum := jobnum s;
     timallow := timallow s; jobid := jobid s; peerid := peerid s;
     argout := argout s; options := options s; server := server s;
     arg := arg s; opt := opt s; def := def s |}.

Definition set_jobFailed (v : Z) (s : slave) : slave :=
  {| host := host s; joblist := joblist s; enginetimeout := enginetimeout s; startcmd := startcmd s;
     matlabRunning := matlabRunning s; matlabStart := matlabStart s;
     matlabFinished := matlabFinished s; engineFailed := engineFailed s;
     engineAborted := engineAborted s; jobFailed := v; jobnum := jobnum s;
     timallow := timallow s; jobid := jobid s; peerid := peerid s;
     argout := argout s; options := options s; server := server s;
     arg := arg s; opt := opt s; def := def s |}.

Definition set_jobnum (v : Z) (s : slave) : slave :=
  {| host := host s; joblist := joblist s; enginetimeout := enginetimeout s; startcmd := startcmd s;
     matlabRunning := matlabRunning s; matlabStart := matlabStart s;
     matlabFinished := matlabFinished s; engineFailed := engineFailed s;
     engineAborted := engineAborted s; jobFailed := jobFailed s;
     jobnum := v; timallow := timallow s; jobid := jobid s;
     peerid := peerid s; argout := argout s; options := options s;
     server := server s; arg := arg s; opt := opt s; def := def s |}.

Definition set_timallow (v : Z) (s : slave) : slave :=
  {| host := host s; joblist := joblist s; enginetimeout := enginetimeout s; startcmd := startcmd s;
     matlabRunning := matlabRunning s; matlabStart := matlabStart s;
     matlabFinished := matlabFinished s; engineFailed := engineFailed s;
     engineAborted := engineAborted s; jobFailed := jobFailed s;
     jobnum := jobnum s; timallow := v; jobid := jobid s;
     peerid := peerid s; argout := argout s; options := options s;
     server := server s; arg := arg s; opt := opt s; def := def s |}.

Definition set_jobid (v : Z) (s : slave) : slave :=
  {| host := host s; joblist := joblist s; enginetimeout := enginetimeout s; startcmd := startcmd s;
     matlabRunning := matlabRunning s; matlabStart := matlabStart s;
     matlabFinished := matlabFinished s; engineFailed := engineFailed s;
     engineAborted := engineAborted s; jobFailed := jobFailed s;
     jobnum := jobnum s; timallow := timallow s; jobid := v;
     peerid := peerid s; argout := argout s; options := options s;
     server := server s; arg := arg s; opt := opt s; def := def s |}.

Definition set_peerid (v : Z) (s : slave) : slave :=
  {| host := host s; joblist := joblist s; enginetimeout := enginetimeout s; startcmd := startcmd s;
     matlabRunning := matlabRunning s; matlabStart := matlabStart s;
     matlabFinished := matlabFinished s; engineFailed := engineFailed s;
     engineAborted := engineAborted s; jobFailed := jobFailed s;
     jobnum := jobnum s; timallow := timallow s; jobid := jobid s;
     peerid := v; argout := argout s; options := options s;
     server := server s; arg := arg s; opt := opt s; def := def s |}.

Definition set_argout (v : option mxArray) (s : slave) : slave :=
  {| host := host s; joblist := joblist s; enginetimeout := enginetimeout s; startcmd := startcmd s;
     matlabRunning := matlabRunning s; matlabStart := matlabStart s;
     matlabFinished := matlabFinished s; engineFailed := engineFailed s;
     engineAborted := engineAborted s; jobFailed := jobFailed s;
     jobnum := jobnum s; timallow := timallow s; jobid := jobid s;
     peerid := peerid s; argout := v; options := options s;
     server := server s; arg := arg s; opt := opt s; def := def s |}.

Definition set_options (v : option mxArray) (s : slave) : slave :=
  {| host := host s; joblist := joblist s; enginetimeout := enginetimeout s; startcmd := startcmd s;
     matlabRunning := matlabRunning s; matlabStart := matlabStart s;
     matlabFinished := matlabFinished s; engineFailed := engineFailed s;
     engineAborted := engineAborted s; jobFailed := jobFailed s;
     jobnum := jobnum s; timallow := timallow s; jobid := jobid s;
     peerid := peerid s; argout := argout s; options := v;
     server := server s; arg := arg s; opt := opt s; def := def s |}.

Definition set_server (v : option Z) (s : slave) : slave :=
  {| host := host s; joblist := joblist s; enginetimeout := enginetimeout s; startcmd := startcmd s;
     matlabRunning := matlabRunning s; matlabStart := matlabStart s;
     matlabFinished := matlabFinished s; engineFailed := engineFailed s;
     engineAborted := engineAborted s; jobFailed := jobFailed s;
     jobnum := jobnum s; timallow := timallow s; jobid := jobid s;
     peerid := peerid s; argout := argout s; options := options s;
     server := v; arg := arg s; opt := opt s; def := def s |}.

Definition set_arg (v : option (option (list byte))) (s : slave) : slave :=
  {| host := host s; joblist := joblist s; enginetimeout := enginetimeout s; startcmd := startcmd s;
     matlabRunning := matlabRunning s; matlabStart := matlabStart s;
     matlabFinished := matlabFinished s; engineFailed := engineFailed s;
     engineAborted := engineAborted s; jobFailed := jobFailed s;
     jobnum := jobnum s; timallow := timallow s; jobid := jobid s;
     peerid := peerid s; argout := argout s; options := options s;
     server := server s; arg := v; opt := opt s; def := def s |}.

Definition set_opt (v : option (option (list byte))) (s : slave) : slave :=
  {| host := host s; joblist := joblist s; enginetimeout := enginetimeout s; startcmd := startcmd s;
     matlabRunning := matlabRunning s; matlabStart := matlabStart s;
     matlabFinished := matlabFinished s; engineFailed := engineFailed s;
     engineAborted := engineAborted s; jobFailed := jobFailed s;
     jobnum := jobnum s; timallow := timallow s; jobid := jobid s;
     peerid := peerid s; argout := argout s; options := options s;
     server := server s; arg := arg s; opt := v; def := def s |}.

Definition set_def (v : option (option jobdef_t)) (s : slave) : slave :=
  {| host := host s; joblist := joblist s; enginetimeout := enginetimeout s; startcmd := startcmd s;
     matlabRunning := matlabRunning s; matlabStart := matlabStart s;
     matlabFinished := matlabFinished s; engineFailed := engineFailed s;
     engineAborted := engineAborted s; jobFailed := jobFailed s;
     jobnum := jobnum s; timallow := timallow s; jobid := jobid s;
     peerid := peerid s; argout := argout s; options := options s;
     server := server s; arg := arg s; opt := opt s; def := v |}.

(** ** The outside world during one iteration of the slave loop *)

(** The clock, the engine and the mx library.  Every call site of
    [time(NULL)] runs at most once per iteration and has its own reading.
    [VERSION] and the two struct sizes come from peer.h. *)
Record world := {
  time_idle : Z;                 (* line 535 *)
  time_zombie : Z;               (* line 547 *)
  time_failed : Z;               (* line 571 *)
  time_start : Z;                (* line 617 *)
  time_finished : Z;             (* line 918 *)
  engClose : Z;
  engOpen : bool;                (* engOpen returned an engine *)
  engPutVariable_argin : Z;
  engPutVariable_options : Z;
  engEvalString : Z;
  engGetVariable_argout : option mxArray;
  engGetVariable_options : option mxArray;
  mxDeserialize : list byte -> Z -> mxArray;
  mxSerialize : mxArray -> option (list byte);
  malloc_jobdef : bool;          (* malloc(sizeof(jobdef_t)) succeeded *)
  VERSION : Z;
  sizeof_hostdef_t : Z;
  sizeof_jobdef_t : Z
}.

(** The peer table (kept by the discover and expire threads) and the
    sockets.  [bufread] gives, for each of the five places where a
    handshake is read, the number of bytes read and the handshake;
    [bufwrite] gives, for each of the four segments, the number of bytes
    written. *)
Record network := {
  peerlist : list peerlist_t;
  open_uds_connection : string -> Z;
  open_tcp_connection : string -> Z -> Z;
  bufread : nat -> Z * Z;
  bufwrite : nat -> Z
}.

(** ** Sequencing: state of [main], and the events in program order *)

Definition M (A : Type) : Type := slave -> A * slave * list event.

#[global] Instance M_ret : MRet M := fun A (a : A) s => (a, s, []).

#[global] Instance M_bind : MBind M := fun A B (k : A -> M B) (m : M A) s =>
  let '(a, s1, t1) := m s in
  let '(b, s2, t2) := k a s1 in
  (b, s2, t1 ++ t2).

Definition emit (e : event) : M unit := fun s => (tt, s, [e]).
Definition get : M slave := fun s => (s, s, []).
Definition modify (f : slave -> slave) : M unit := fun s => (tt, f s, []).
Definition skip : M unit := mret tt.
Definition update_host (f : hostdef_t -> hostdef_t) : M unit :=
  modify (fun s => set_host (f (host s)) s).

Definition final_state {A} (r : A * slave * list event) : slave := snd (fst r).
Definition trace_of {A} (r : A * slave * list event) : list event := snd r.

Definition lock (m : mutex) : M unit := emit (Lock m).
Definition unlock (m : mutex) : M unit := emit (Unlock m).

(** Modelled from the spec: [announce_once()] is not in this file; it
    "snapshots the host and publishes it". *)
Definition announce_once : M unit :=
  s ← get; emit (Announce (host s)).

(** Modelled from the spec: [jobcount()] is not in this file; it is the
    number of entries of the job queue. *)
Definition jobcount : M Z :=
  s ← get; emit Jobcount;; mret (Z.of_nat (length (joblist s))).

(** Modelled from the spec: [clear_joblist()] is not in this file; the
    spec's step is "Clear the job queue", the source's comment is
    "clear the joblist". *)
Definition clear_joblist : M unit :=
  emit ClearJoblist;; modify (set_joblist []).

(** ** The slave loop (lines 522-929) *)

(** [host->status = st; bzero/fill host->current;] under [mutexhost],
    followed by [announce_once()]. *)
Definition publish_status (st : status_t) (c : current_t) : M unit :=
  lock mutexhost;;
  update_host (set_status_current st c);;
  unlock mutexhost;;
  announce_once.

(** Lines 534-544: switch the engine off after being idle for a certain
    time.  Both outcomes of [engClose] clear [matlabRunning]. *)
Definition close_idle_engine (w : world) : M unit :=
  s ← get;
  if negb (matlabRunning s =? 0)
     && (time_idle w - matlabFinished s >? enginetimeout s)
  then
    emit EngClose;;
    if negb (engClose w =? 0)
    then modify (set_matlabRunning 0)
    else modify (set_matlabRunning 0)
  else skip.

(** Lines 564-587: start the engine when it is not running. *)
Definition start_engine (w : world) : M unit :=
  s ← get;
  if matlabRunning s =? 0 then
    emit (EngOpen (startcmd s));;
    if engOpen w then
      modify (set_engineFailed 0);;
      modify (set_matlabRunning 1)
    else
      modify (set_engineFailed (to_int (time_failed w)));;
      modify (set_matlabRunning 0);;
      publish_status STATUS_ZOMBIE current_zero
  else skip.

(** The description of the job that is copied into [host->current]. *)
Definition current_of (job : joblist_t) : current_t :=
  {| cur_hostid := h_id (job_host job);
     cur_jobid := d_id (job_job job);
     cur_name := h_name (job_host job);
     cur_user := h_user (job_host job);
     cur_group := h_group (job_host job);
     cur_timreq := d_timreq (job_job job);
     cur_memreq := d_memreq (job_job job);
     cur_cpureq := d_cpureq (job_job job) |}.

(** Lines 590-636: take the first job, become busy, and build [argin] and
    the extended [options]. *)
Definition take_job (w : world) (job : joblist_t) : M (mxArray * mxArray) :=
  lock mutexjoblist;;
  lock mutexhost;;
  update_host (set_status_current STATUS_BUSY (current_of job));;
  s ← get;
  modify (set_timallow
            (compute_timallow (d_timreq (job_job job)) (h_timavail (host s))));;
  unlock mutexhost;;
  announce_once;;
  modify (set_matlabStart (to_int (time_start w)));;
  let argin := mxDeserialize w (job_arg job) (d_argsize (job_job job)) in
  let previous := mxDeserialize w (job_opt job) (d_optsize (job_job job)) in
  modify (set_jobid (to_uint (d_id (job_job job))));;
  modify (set_peerid (to_uint (h_id (job_host job))));;
  s ← get;
  modify (set_jobnum (jobnum s + 1));;
  unlock mutexjoblist;;
  s ← get;
  let options := inject_options previous (peerid s) (timallow s) in
  modify (set_options (Some options));;
  mret (argin, options).

(** Lines 638-672: the five engine steps, each tried only while
    [jobFailed] is still 0. *)
Definition execute_job (w : world) (argin options : mxArray) : M unit :=
  modify (set_jobFailed 0);;
  s ← get;
  (if jobFailed s =? 0 then
     emit (EngPutVariable "argin" argin);;
     if negb (engPutVariable_argin w =? 0)
     then modify (set_jobFailed 1) else skip
   else skip);;
  s ← get;
  (if jobFailed s =? 0 then
     emit (EngPutVariable "options" options);;
     if negb (engPutVariable_options w =? 0)
     then modify (set_jobFailed 2) else skip
   else skip);;
  emit (MxDestroyArray "argin");;
  emit (MxDestroyArray "options");;
  s ← get;
  (if jobFailed s =? 0 then
     emit (EngEvalString "[argout, options] = peerexec(argin, options);");;
     if negb (engEvalString w =? 0)
     then modify (set_jobFailed 3);; modify (set_engineAborted 1) else skip
   else skip);;
  s ← get;
  (if jobFailed s =? 0 then
     emit (EngGetVariable "argout");;
     modify (set_argout (engGetVariable_argout w));;
     match engGetVariable_argout w with
     | None => modify (set_jobFailed 4);; modify (set_engineAborted 1)
     | Some _ => skip
     end
   else skip);;
  s ← get;
  (if jobFailed s =? 0 then
     emit (EngGetVariable "options");;
     modify (set_options (engGetVariable_options w));;
     match engGetVariable_options w with
     | None => modify (set_jobFailed 5);; modify (set_engineAborted 1)
     | Some _ => skip
     end
   else skip).

(** Lines 589-674: [if (matlabRunning) { ... }].  [jobcount()>0] was
    tested before, so the queue has a first entry. *)
Definition run_job (w : world) : M unit :=
  s ← get;
  if negb (matlabRunning s =? 0) then
    match joblist s with
    | job :: _ =>
        '(argin, options) ← take_job w job;
        execute_job w argin options
    | [] => skip
    end
  else skip.

(** Lines 676-704: on a failure, [jobid] and [peerid] are read again from
    the first entry of the queue (the messages that are logged are left
    out). *)
Definition note_failure : M unit :=
  s ← get;
  if negb (engineFailed s =? 0) || negb (jobFailed s =? 0) then
    lock mutexjoblist;;
    match joblist s with
    | job :: _ =>
        modify (set_jobid (to_uint (d_id (job_job job))));;
        modify (set_peerid (to_uint (h_id (job_host job))))
    | [] => skip
    end;;
    unlock mutexjoblist
  else skip.

(** The 1x2 cell array [{"lasterr", msg}]. *)
Definition lasterr (msg : string) : mxArray :=
  let options := mxCreateCellMatrix 1 2 in
  let options := mxSetCell options 0 (Some (mxCreateString "lasterr")) in
  mxSetCell options 1 (Some (mxCreateString msg)).

Definition failure_message (jobFailed : Z) : string :=
  if jobFailed =? 1 then "failed to execute the job (argin)"
  else if jobFailed =? 2 then "failed to execute the job (optin)"
  else if jobFailed =? 3 then "failed to execute the job (eval)"
  else if jobFailed =? 4 then "failed to execute the job (argout)"
  else if jobFailed =? 5 then "failed to execute the job (optout)"
  else "failed to execute the job".

(** Lines 706-732: the output that reports an error to the master. *)
Definition synthesize_error : M unit :=
  s ← get;
  if negb (engineFailed s =? 0) then
    modify (set_argout (Some (mxCreateCellMatrix 1 1)));;
    modify (set_options (Some (lasterr "could not start the matlab engine")))
  else if negb (jobFailed s =? 0) then
    modify (set_argout (Some (mxCreateCellMatrix 1 1)));;
    modify (set_options (Some (lasterr (failure_message (jobFailed s)))))
  else skip.

(** *** Sending the results back to the master (lines 738-901) *)

(** Lines 741-748: the first entry of the peer table with the given id. *)
Fixpoint find_peer (peers : list peerlist_t) (peerid : Z) : option peerlist_t :=
  match peers with
  | [] => None
  | peer :: next =>
      if h_id (peer_host peer) =? peerid then Some peer
      else find_peer next peerid
  end.

(** The descriptor in [server]; it has been assigned wherever this is used. *)
Definition server_fd (s : slave) : Z := default 0 (server s).

(** [mxSerialize] of one of the variables [argout], [options]. *)
Definition serialize_var (w : world) (v : option mxArray) : option (list byte) :=
  match v with
  | Some a => mxSerialize w a
  | None => None
  end.

(** One handshake: [bufread] of an [int]; a short read or a handshake of 0
    is [goto cleanup], which here drops the continuation [k]. *)
Definition read_handshake (n : network) (site : nat) (k : M unit) : M unit :=
  s ← get;
  let '(len, handshake) := bufread n site in
  emit (BufRead (server_fd s) len handshake);;
  if negb (len =? sizeof_int) then skip
  else if handshake =? 0 then skip
  else k.

(** [if (success) success = (bufwrite(server, p, size) == size);] *)
Definition write_segment (n : network) (site : nat) (success : bool)
    (f : frame) (size : Z) : M bool :=
  if success then
    s ← get;
    emit (BufWrite (server_fd s) f (bufwrite n site));;
    mret (bufwrite n site =? size)
  else mret false.

(** Lines 823-829. *)
Definition result_jobdef (w : world) (jobid : Z) (a b : list byte) : jobdef_t :=
  {| d_version := VERSION w; d_id := jobid; d_memreq := 0; d_cpureq := 0;
     d_timreq := 0;
     d_argsize := to_uint (Z.of_nat (length a));
     d_optsize := to_uint (Z.of_nat (length b)) |}.

(** Lines 792-883: from the first handshake to the last one. *)
Definition send_message (w : world) (n : network) : M unit :=
  read_handshake n 0 (
    s ← get;
    modify (set_arg (Some (serialize_var w (argout s))));;
    match serialize_var w (argout s) with
    | None => skip
    | Some a =>
      modify (set_opt (Some (serialize_var w (options s))));;
      match serialize_var w (options s) with
      | None => skip
      | Some b =>
        if malloc_jobdef w then
          let d := result_jobdef w (jobid s) a b in
          modify (set_def (Some (Some d)));;
          let success := true in
          lock mutexhost;;
          success ← write_segment n 0 success (FHost (host s)) (sizeof_hostdef_t w);
          unlock mutexhost;;
          read_handshake n 1 (
            success ← write_segment n 1 success (FJobdef d) (sizeof_jobdef_t w);
            read_handshake n 2 (
              success ← write_segment n 2 success (FData a) (d_argsize d);
              read_handshake n 3 (
                success ← write_segment n 3 success (FData b) (d_optsize d);
                read_handshake n 4 skip)))
        else modify (set_def (Some None))
      end
    end).

(** Lines 738-790: look the master up and open the connection. *)
Definition send_results (w : world) (n : network) : M unit :=
  lock mutexpeerlist;;
  s ← get;
  match find_peer (peerlist n) (peerid s) with
  | None => unlock mutexpeerlist
  | Some peer =>
    lock mutexhost;;
    let hasuds := negb (String.length (h_socket (peer_host peer)) =? 0)%nat
                  && String.eqb (h_name (peer_host peer)) (h_name (host s)) in
    let hastcp := h_port (peer_host peer) >? 0 in
    unlock mutexhost;;
    modify (set_server (Some 0));;
    modify (set_def (Some None));;
    modify (set_arg (Some None));;
    modify (set_opt (Some None));;
    if hasuds then
      emit (OpenUds (h_socket (peer_host peer)));;
      let fd := open_uds_connection n (h_socket (peer_host peer)) in
      modify (set_server (Some fd));;
      if fd <? 0 then unlock mutexpeerlist
      else unlock mutexpeerlist;; send_message w n
    else if hastcp then
      emit (OpenTcp (peer_ipaddr peer) (h_port (peer_host peer)));;
      let fd := open_tcp_connection n (peer_ipaddr peer) (h_port (peer_host peer)) in
      modify (set_server (Some fd));;
      if fd <? 0 then unlock mutexpeerlist
      else unlock mutexpeerlist;; send_message w n
    else unlock mutexpeerlist
  end.

(** Lines 885-901, the [cleanup] label.  A variable that no statement has
    assigned yet has no value to test: the event [Indeterminate] marks the
    read.  [FREE] is the macro of peer.h that frees a pointer that is not
    [NULL] and sets it to [NULL]. *)
Definition cleanup : M unit :=
  s ← get;
  match server s with
  | None => emit (Indeterminate "server")
  | Some fd =>
      if fd >? 0 then
        emit (CloseConnection fd);; modify (set_server (Some 0))
      else skip
  end;;
  match arg s with
  | None => emit (Indeterminate "arg")
  | Some None => skip
  | Some (Some _) => emit (MxDestroyArray "arg");; modify (set_arg (Some None))
  end;;
  match opt s with
  | None => emit (Indeterminate "opt")
  | Some None => skip
  | Some (Some _) => emit (MxDestroyArray "opt");; modify (set_opt (Some None))
  end;;
  match def s with
  | None => emit (Indeterminate "def")
  | Some None => skip
  | Some (Some _) => emit (Free "def");; modify (set_def (Some None))
  end.

(** Lines 905-920: clear the job list and become idle again. *)
Definition finish_job (w : world) : M unit :=
  clear_joblist;;
  s ← get;
  if engineFailed s =? 0 then
    publish_status STATUS_IDLE current_zero;;
    modify (set_matlabFinished (to_int (time_finished w)))
  else skip.

(** Lines 546-559: leave the zombie state after the timeout; the
    iteration ends there ([continue]). *)
Definition zombie_expired (w : world) (s : slave) : bool :=
  negb (engineFailed s =? 0) && (time_zombie w - engineFailed s >? ZOMBIETIMEOUT).

(** Lines 564-732: start the engine if needed, run the first job, and
    replace the output by an error report when something failed. *)
Definition process_job (w : world) : M unit :=
  start_engine w;;
  run_job w;;
  note_failure;;
  synthesize_error.

(** Lines 734-920: send the results back to the master, release what the
    protocol allocated, clear the job list and become idle again. *)
Definition return_results (w : world) (n : network) : M unit :=
  send_results w n;;
  cleanup;;
  finish_job w.

(** One pass through the body of [while (!engineAborted)]. *)
Definition slave_iteration (w : world) (n : network) : M unit :=
  close_idle_engine w;;
  s ← get;
  if zombie_expired w s then
    publish_status STATUS_IDLE current_zero;;
    modify (set_engineFailed 0)
  else
    c ← jobcount;
    if c >? 0 then
      process_job w;;
      return_results w n
    else emit ThreadSleep.

(** What happens around one iteration: the jobs that the tcpserver thread
    has appended to the queue since the last one, and the outside world. *)
Record tick := {
  arrivals : list joblist_t;
  the_world : world;
  the_network : network
}.

Definition receive (jobs : list joblist_t) : M unit :=
  modify (fun s => set_joblist (joblist s ++ jobs) s).

Definition slave_tick (t : tick) : M unit :=
  receive (arrivals t);;
  slave_iteration (the_world t) (the_network t).

(** [while (!engineAborted) { ... } return engineAborted;] run over the
    given ticks.  The result is the exit status of the process, or [None]
    when the slave is still looping after the last tick. *)
Fixpoint slave_loop (ticks : list tick) : M (option Z) :=
  s ← get;
  if engineAborted s =? 0 then
    match ticks with
    | [] => mret None
    | t :: ticks' => slave_tick t;; slave_loop ticks'
    end
  else mret (Some (engineAborted s)).

(** The locals of [main] when the slave loop is entered: [def] is
    initialised to [NULL]; [server], [arg] and [opt] are only declared. *)
Definition initial_slave (h : hostdef_t) (timeout : Z) (cmd : string) : slave :=
  {| host := h; joblist := []; enginetimeout := timeout; startcmd := cmd;
     matlabRunning := 0; matlabStart := 0; matlabFinished := 0;
     engineFailed := 0; engineAborted := 0; jobFailed := 0; jobnum := 0;
     timallow := 0; jobid := 0; peerid := 0; argout := None; options := None;
     server := None; arg := None; opt := None; def := Some None |}.

(** Lines 522-929: become an idle slave, announce, and loop. *)
Definition slave_main (ticks : list tick) : M (option Z) :=
  publish_status STATUS_IDLE current_zero;;
  slave_loop ticks.

(** ** The supervisor (lines 288-352) *)

(** The list of configurations is walked in a circle: [sup_cconf] is the
    position of [cconf] in it, [sup_pids] the [pid] field of each entry,
    [sup_hostid] is [host->id]. *)
Record supervisor := {
  sup_hostid : Z;
  sup_pids : list Z;
  sup_cconf : nat
}.

(** What [waitpid(cconf->pid, &status, WNOHANG)] returns and how the three
    macros read [status]. *)
Record wait_t := {
  waitpid : Z;
  WIFEXITED : bool;
  WIFSIGNALED : bool;
  WIFSTOPPED : bool
}.

(** The outside world during one pass of the supervisor. *)
Record sup_tick := {
  the_wait : wait_t;
  the_fork : Z
}.

Inductive supervised :=
| Monitoring (s : supervisor)   (* the parent keeps monitoring the slaves *)
| Child (s : supervisor)        (* [break]: the child continues as the actual slave *)
| ForkFailed.                   (* [perror("fork"); exit(0);] *)

(** Lines 293-308: a child that exited or was signaled gets [pid = 0];
    for a stopped child only a message is logged. *)
Definition check_child (wt : wait_t) (pid : Z) : Z * list event :=
  if negb (pid =? 0) then
    if waitpid wt >? 0 then
      let pid1 := if WIFEXITED wt then 0 else pid in
      let pid2 := if WIFSIGNALED wt then 0 else pid1 in
      (pid2, [Waitpid pid])
    else (pid, [Waitpid pid])
  else (pid, []).

(** Lines 343-348: the next item on the list, or the start of the list. *)
Definition next_cconf (s : supervisor) : nat :=
  if (S (sup_cconf s) <? length (sup_pids s))%nat then S (sup_cconf s) else 0%nat.

(** One pass through the body of the monitoring loop. *)
Definition supervise_step (t : sup_tick) (s : supervisor)
  : supervised * list event :=
  let '(pid, tr) :=
    check_child (the_wait t) (default 0 (sup_pids s !! sup_cconf s)) in
  let pids := <[sup_cconf s := pid]> (sup_pids s) in
  if pid =? 0 then
    (* host->id++ under mutexhost, then fork() *)
    let id := to_uint (sup_hostid s + 1) in
    let tr := tr ++ [Lock mutexhost; Unlock mutexhost; Fork id] in
    let childpid := the_fork t in
    if childpid >=? 0 then
      if childpid =? 0 then
        (Child {| sup_hostid := id; sup_pids := pids; sup_cconf := sup_cconf s |},
         tr)
      else
        let s' := {| sup_hostid := id;
                     sup_pids := <[sup_cconf s := childpid]> pids;
                     sup_cconf := sup_cconf s |} in
        (Monitoring {| sup_hostid := id; sup_pids := sup_pids s';
                       sup_cconf := next_cconf s' |},
         tr ++ [ThreadSleep])
    else (ForkFailed, tr)
  else
    let s' := {| sup_hostid := sup_hostid s; sup_pids := pids;
                 sup_cconf := sup_cconf s |} in
    (Monitoring {| sup_hostid := sup_hostid s; sup_pids := pids;
                   sup_cconf := next_cconf s' |},
     tr ++ [ThreadSleep]).

(** The monitoring loop, as the parent sees it, over the given ticks. *)
Fixpoint supervise (ticks : list sup_tick) (s : supervisor)
  : supervised * list event :=
  match ticks with
  | [] => (Monitoring s, [])
  | t :: ticks' =>
      match supervise_step t s with
      | (Monitoring s', tr) =>
          let '(r, tr') := supervise ticks' s' in (r, tr ++ tr')
      | (r, tr) => (r, tr)
      end
  end.

(** The host ids that the children were forked with, in order. *)
Fixpoint forked_ids (tr : list event) : list Z :=
  match tr with
  | [] => []
  | Fork id :: tr' => id :: forked_ids tr'
  | _ :: tr' => forked_ids tr'
  end.

(** ** The command line (lines 111-246) *)

(** What one call of [getopt_long] returns: 0 for the option that sets a
    flag (only [--help], which stores 1 in [help_flag]), the code 1..14 of
    an option with its argument, or anything else for an invalid option. *)
Inductive getopt_t :=
| GetoptFlag
| GetoptValue (c : Z) (optarg : string)
| GetoptInvalid.

(** [config_t]: the fourteen string fields in the order of [long_options]
    (the field with code [c] is [conf_field c]), and [pid]. *)
Record config_t := {
  conf_field : Z -> option string;
  conf_pid : Z
}.

(** Modelled from the spec: [initconfig] is not in this file; a fresh
    configuration has no option set and no child. *)
Definition initconfig : config_t :=
  {| conf_field := fun _ => None; conf_pid := 0 |}.

Definition store_option (c : Z) (optarg : string) (conf : config_t) : config_t :=
  {| conf_field := fun c' => if c' =? c then Some optarg else conf_field conf c';
     conf_pid := conf_pid conf |}.

Inductive startup_t :=
| Help                                     (* print_help(argv); exit(0); *)
| Panic (msg : string)                     (* PANIC(msg) *)
| Start (numpeer : Z) (pconf : list config_t).

(** The character that C writes as a backslash followed by n. *)
Definition newline : string := String "010"%char EmptyString.

(** Lines 126-239: the loop around [getopt_long]; it gives the final
    [help_flag] and the configuration, or the message of the PANIC. *)
Fixpoint parse_options (results : list getopt_t) (help_flag : Z)
    (conf : config_t) : string + Z * config_t :=
  match results with
  | [] => inr (help_flag, conf)
  | GetoptFlag :: rest => parse_options rest 1 conf
  | GetoptValue c optarg :: rest =>
      if (1 <=? c) && (c <=? 14)
      then parse_options rest help_flag (store_option c optarg conf)
      else inl ("invalid command line options" +:+ newline)%string
  | GetoptInvalid :: _ => inl ("invalid command line options" +:+ newline)%string
  end.

(** Lines 111-246.  [parsefile] reads a configuration file and gives the
    number of peers and their configurations; [getopt_long] gives the
    results of its successive calls on [argv]. *)
Definition startup (parsefile : string -> Z * list config_t)
    (getopt_long : list string -> list getopt_t) (argv : list string)
  : startup_t :=
  let help_flag := 0 in
  let parsed :=
    if (length argv =? 2)%nat then
      let '(numpeer, pconf) := parsefile (default "" (argv !! 1%nat)) in
      if to_uint numpeer <? 1
      then inl "cannot read the configuration file"
      else inr (help_flag, to_uint numpeer, pconf)
    else
      match parse_options (getopt_long argv) help_flag initconfig with
      | inl msg => inl msg
      | inr (help_flag, conf) => inr (help_flag, 1, [conf])
      end in
  match parsed with
  | inl msg => Panic msg
  | inr (help_flag, numpeer, pconf) =>
      if negb (help_flag =? 0) then Help else Start numpeer pconf
  end.

(** ** Properties of traces *)

#[global] Instance mutex_eq_dec : EqDecision mutex.
Proof. solve_decision. Defined.

Definition is_engine_call (e : event) : bool :=
  match e with
  | EngOpen _ | EngClose | EngPutVariable _ _ | EngEvalString _
  | EngGetVariable _ => true
  | _ => false
  end.

Definition is_read (e : event) : bool :=
  match e with BufRead _ _ _ => true | _ => false end.

Definition is_write (e : event) : bool :=
  match e with BufWrite _ _ _ => true | _ => false end.

Definition is_announce (e : event) : bool :=
  match e with Announce _ => true | _ => false end.

(** The mutexes held after an event, from those held before it (the most
    recently locked one first). *)
Definition held_after (held : list mutex) (e : event) : list mutex :=
  match e with
  | Lock m => m :: held
  | Unlock m => filter (fun m' => m' <> m) held
  | _ => held
  end.

(** Runs a locking rule over a trace: the mutexes held at the end, or
    [None] as soon as an event is not allowed with the mutexes held. *)
Fixpoint locking (rule : list mutex -> event -> bool) (held : list mutex)
    (tr : list event) : option (list mutex) :=
  match tr with
  | [] => Some held
  | e :: tr' =>
      if rule held e then locking rule (held_after held e) tr' else None
  end.

(** The rule of the spec: never a second mutex, and no mutex across a
    socket read or write or an engine call. *)
Definition spec_rule (held : list mutex) (e : event) : bool :=
  match e with
  | Lock _ => bool_decide (held = [])
  | _ => if is_engine_call e || is_read e || is_write e
         then bool_decide (held = []) else true
  end.

(** The rule that the slave loop follows: [mutexhost] may be taken inside
    [mutexjoblist] or [mutexpeerlist]; the host descriptor is written to
    the socket under [mutexhost]; the connection is opened under
    [mutexpeerlist]; [announce_once] may be called under [mutexjoblist];
    everything else of the engine and the sockets is done with no mutex. *)
Definition slave_rule (held : list mutex) (e : event) : bool :=
  match e with
  | Lock m =>
      bool_decide (held = [])
      || (bool_decide (m = mutexhost)
          && (bool_decide (held = [mutexjoblist])
              || bool_decide (held = [mutexpeerlist])))
  | Unlock m => bool_decide (head held = Some m)
  | BufWrite _ (FHost _) _ => bool_decide (held = [mutexhost])
  | OpenUds _ | OpenTcp _ _ => bool_decide (held = [mutexpeerlist])
  | Announce _ => bool_decide (held = []) || bool_decide (held = [mutexjoblist])
  | _ => if is_engine_call e || is_read e || is_write e
         then bool_decide (held = []) else true
  end.

(** The size that [bufwrite] is asked to write for a segment. *)
Definition segment_size (w : world) (f : frame) : Z :=
  match f with
  | FHost _ => sizeof_hostdef_t w
  | FJobdef _ => sizeof_jobdef_t w
  | FData bytes => to_uint (Z.of_nat (length bytes))
  end.

(** A handshake that could not be read, or that is 0. *)
Definition bad_handshake (len handshake : Z) : bool :=
  negb (len =? sizeof_int) || (handshake =? 0).

(** After a bad handshake, no event of the rest satisfies [stops]. *)
Fixpoint after_bad_handshake (stops : event -> bool) (tr : list event) : bool :=
  match tr with
  | [] => true
  | BufRead _ len handshake :: tr' =>
      (if bad_handshake len handshake
       then forallb (fun e => negb (stops e)) tr' else true)
      && after_bad_handshake stops tr'
  | _ :: tr' => after_bad_handshake stops tr'
  end.

(** After a short write, no event of the rest satisfies [stops]. *)
Fixpoint after_short_write (w : world) (stops : event -> bool)
    (tr : list event) : bool :=
  match tr with
  | [] => true
  | BufWrite _ f n :: tr' =>
      (if negb (n =? segment_size w f)
       then forallb (fun e => negb (stops e)) tr' else true)
      && after_short_write w stops tr'
  | _ :: tr' => after_short_write w stops tr'
  end.

Definition is_socket_io (e : event) : bool := is_read e || is_write e.

(** The number of events of a trace that satisfy [p]. *)
Definition count (p : event -> bool) (tr : list event) : nat :=
  length (List.filter p tr).


(** ** Example inputs *)

Definition ex_host : hostdef_t :=
  {| h_id := 7; h_name := "slave"; h_user := "bob"; h_group := "lab";
     h_socket := ""; h_port := 1700; h_status := STATUS_IDLE;
     h_timavail := 100; h_memavail := 0; h_cpuavail := 0;
     h_current := current_zero |}.

Definition ex_master : hostdef_t :=
  {| h_id := 42; h_name := "master"; h_user := "alice"; h_group := "lab";
     h_socket := ""; h_port := 1701; h_status := STATUS_IDLE;
     h_timavail := 0; h_memavail := 0; h_cpuavail := 0;
     h_current := current_zero |}.

(** A job of the master with the given id and requested time. *)
Definition ex_job (id timreq : Z) : joblist_t :=
  {| job_host := ex_master;
     job_job := {| d_version := 8; d_id := id; d_memreq := 0; d_cpureq := 0;
                   d_timreq := timreq; d_argsize := 1; d_optsize := 1 |};
     job_arg := [x01%byte]; job_opt := [x02%byte] |}.

(** An engine that works: the options blob is an empty cell array. *)
Definition ex_world : world :=
  {| time_idle := 1000; time_zombie := 1000; time_failed := 1000;
     time_start := 1000; time_finished := 1005;
     engClose := 0; engOpen := true;
     engPutVariable_argin := 0; engPutVariable_options := 0;
     engEvalString := 0;
     engGetVariable_argout := Some (MxOther 1 1);
     engGetVariable_options := Some (MxCell []);
     mxDeserialize := fun b _ =>
       match b with [x02%byte] => MxCell [] | _ => MxOther 1 0 end;
     mxSerialize := fun a => Some [x03%byte];
     malloc_jobdef := true; VERSION := 8;
     sizeof_hostdef_t := 100; sizeof_jobdef_t := 40 |}.


(** The same world with an engine in which the evaluation fails. *)
Definition ex_world_eval_fails : world :=
  {| time_idle := 1000; time_zombie := 1000; time_failed := 1000;
     time_start := 1000; time_finished := 1005;
     engClose := 0; engOpen := true;
     engPutVariable_argin := 0; engPutVariable_options := 0;
     engEvalString := 1;
     engGetVariable_argout := Some (MxOther 1 1);
     engGetVariable_options := Some (MxCell []);
     mxDeserialize := mxDeserialize ex_world;
     mxSerialize := mxSerialize ex_world;
     malloc_jobdef := true; VERSION := 8;
     sizeof_hostdef_t := 100; sizeof_jobdef_t := 40 |}.

(** The master is in the peer table and accepts everything over TCP. *)
Definition ex_network : network :=
  {| peerlist := [ {| peer_host := ex_master; peer_ipaddr := "10.0.0.1" |} ];
     open_uds_connection := fun _ => -1;
     open_tcp_connection := fun _ _ => 5;
     bufread := fun _ => (4, 1);
     bufwrite := fun site =>
       match site with 0%nat => 100 | 1%nat => 40 | _ => 1 end |}.

(** The same network, but the host descriptor is only written in part. *)
Definition ex_network_short_write : network :=
  {| peerlist := peerlist ex_network;
     open_uds_connection := fun _ => -1;
     open_tcp_connection := fun _ _ => 5;
     bufread := fun _ => (4, 1);
     bufwrite := fun site => match site with 0%nat => 60 | _ => 1 end |}.

(** The master has left the peer table. *)
Definition ex_network_no_peer : network :=
  {| peerlist := [];
     open_uds_connection := fun _ => -1;
     open_tcp_connection := fun _ _ => 5;
     bufread := fun _ => (4, 1);
     bufwrite := fun _ => 0 |}.



(** The slave as it enters the loop, with the given jobs queued. *)
Definition ex_slave (jobs : list joblist_t) : slave :=
  set_joblist jobs (initial_slave ex_host ENGINETIMEOUT STARTCMD).

(** ** Properties of computations *)

(** The state [s'] where everything but the four locals of the
    result-send protocol is taken from [s]. *)
Definition with_send_vars (s' s : slave) : slave :=
  set_server (server s') (set_arg (arg s') (set_opt (opt s') (set_def (def s') s))).

(** The three engine steps that carry a job. *)
Definition is_engine_step (e : event) : bool :=
  match e with
  | EngPutVariable _ _ | EngEvalString _ | EngGetVariable _ => true
  | _ => false
  end.

(** Every event that [m] emits satisfies [p]. *)
Definition emits {A} (p : event -> bool) (m : M A) : Prop :=
  forall s, forallb p (trace_of (m s)) = true.

(** [m] leaves the component [f] of the state as it is. *)
Definition keeps {A T} (f : slave -> T) (m : M A) : Prop :=
  forall s, f (final_state (m s)) = f s.

(** Entered with no mutex held, [m] follows the locking rule of the slave
    loop and returns with no mutex held. *)
Definition locks_well {A} (m : M A) : Prop :=
  forall s, locking slave_rule [] (trace_of (m s)) = Some [].

(** [m] takes no part in the execution of a job: it performs no engine
    step and leaves [jobFailed] and [engineAborted] as they are. *)
Definition bystander {A} (m : M A) : Prop :=
  emits (fun e => negb (is_engine_step e)) m
  /\ keeps jobFailed m /\ keeps engineAborted m.

(** A host without a limit on the duration of a job: [timavail] is "inf",
    the largest unsigned 64-bit value. *)
Definition ex_host_unlimited : hostdef_t :=
  {| h_id := 7; h_name := "slave"; h_user := "bob"; h_group := "lab";
     h_socket := ""; h_port := 1700; h_status := STATUS_IDLE;
     h_timavail := 18446744073709551615; h_memavail := 0; h_cpuavail := 0;
     h_current := current_zero |}.

(** A slave on that host, with the engine running and the jobs queued. *)
Definition ex_slave_unlimited (jobs : list joblist_t) : slave :=
  set_matlabRunning 1
    (set_joblist jobs (initial_slave ex_host_unlimited ENGINETIMEOUT STARTCMD)).

(** Step [k] of the five engine steps of a job was tried (its event is in
    the trace) and failed. *)
Definition step_failed (w : world) (tr : list event) (k : Z) : Prop :=
  (k = 1 /\ (exists v, EngPutVariable "argin" v ∈ tr)
   /\ engPutVariable_argin w <> 0)
  \/ (k = 2 /\ (exists v, EngPutVariable "options" v ∈ tr)
      /\ engPutVariable_options w <> 0)
  \/ (k = 3 /\ (exists cmd, EngEvalString cmd ∈ tr) /\ engEvalString w <> 0)
  \/ (k = 4 /\ EngGetVariable "argout" ∈ tr /\ engGetVariable_argout w = None)
  \/ (k = 5 /\ EngGetVariable "options" ∈ tr /\ engGetVariable_options w = None).

(** The part that [run_job] has in a computation [m]: either [m] performs
    no engine step and leaves [engineAborted] alone, or its engine steps
    are those of one call of [run_job], entered with the [engineAborted]
    of the start, and its failure flags at the end are those that
    [run_job] left. *)
Definition runs_one_job {A} (w : world) (m : M A) : Prop :=
  forall s,
    (forallb (fun e => negb (is_engine_step e)) (trace_of (m s)) = true
     /\ engineAborted (final_state (m s)) = engineAborted s)
    \/ exists pre post s2,
         trace_of (m s) = pre ++ trace_of (run_job w s2) ++ post
         /\ forallb (fun e => negb (is_engine_step e)) pre = true
         /\ forallb (fun e => negb (is_engine_step e)) post = true
         /\ engineAborted s2 = engineAborted s
         /\ jobFailed (final_state (m s)) = jobFailed (final_state (run_job w s2))
         /\ engineAborted (final_state (m s))
            = engineAborted (final_state (run_job w s2)).

(** The socket that the result-send protocol gets for a peer: the UDS
    socket when the peer is on this host and has one, else the TCP
    socket. *)
Definition connection_of (n : network) (s : slave) (peer : peerlist_t) : Z :=
  if negb (String.length (h_socket (peer_host peer)) =? 0)%nat
     && String.eqb (h_name (peer_host peer)) (h_name (host s))
  then open_uds_connection n (h_socket (peer_host peer))
  else open_tcp_connection n (peer_ipaddr peer) (h_port (peer_host peer)).

(** A tick in which the evaluation of the job fails. *)
Definition ex_tick_eval_fails : tick :=
  {| arrivals := [ex_job 7 10]; the_world := ex_world_eval_fails;
     the_network := ex_network |}.

(** [m] assigns nothing but the four locals of the result-send protocol. *)
Definition only_send_vars {A} (m : M A) : Prop :=
  forall s, final_state (m s) = with_send_vars (final_state (m s)) s.

Definition is_indeterminate (e : event) : bool :=
  match e with Indeterminate _ => true | _ => false end.

(** A supervisor of two slaves, before the first fork. *)
Definition ex_supervisor : supervisor :=
  {| sup_hostid := 7; sup_pids := [0; 0]; sup_cconf := 0 |}.

(** Nothing to reap, and [fork] returns a fresh pid to the parent. *)
Definition ex_sup_tick (childpid : Z) : sup_tick :=
  {| the_wait := {| waitpid := 0; WIFEXITED := false; WIFSIGNALED := false;
                    WIFSTOPPED := false |};
     the_fork := childpid |}.

(** The master on the slave's own host, with a UDS socket and a port. *)
Definition ex_master_local : hostdef_t :=
  {| h_id := 42; h_name := "slave"; h_user := "alice"; h_group := "lab";
     h_socket := "/tmp/peer.42"; h_port := 1701; h_status := STATUS_IDLE;
     h_timavail := 0; h_memavail := 0; h_cpuavail := 0;
     h_current := current_zero |}.

(** That master is in the peer table, and its UDS socket refuses the
    connection. *)
Definition ex_network_uds_fails : network :=
  {| peerlist := [ {| peer_host := ex_master_local; peer_ipaddr := "10.0.0.1" |} ];
     open_uds_connection := fun _ => -1;
     open_tcp_connection := fun _ _ => 5;
     bufread := fun _ => (4, 1);
     bufwrite := fun _ => 0 |}.

(** ** What holds of the slave between two passes of its loop *)

(** The host is not busy and describes no job; it is a zombie exactly
    while a failure of the engine is on record, and then the engine is
    not running. *)
Definition between_passes (s : slave) : Prop :=
  h_current (host s) = current_zero
  /\ (engineFailed s = 0 -> h_status (host s) = STATUS_IDLE)
  /\ (engineFailed s <> 0 ->
      h_status (host s) = STATUS_ZOMBIE /\ matlabRunning s = 0).

(** The host descriptor that the peers were told last, [h] if the trace
    has no announcement. *)
Fixpoint last_announced (tr : list event) (h : hostdef_t) : hostdef_t :=
  match tr with
  | [] => h
  | Announce h' :: tr' => last_announced tr' h'
  | _ :: tr' => last_announced tr' h
  end.

(** When [m] returns, the host descriptor is the one announced last (or
    the one [m] was entered with, if [m] announced nothing). *)
Definition announces_host {A} (m : M A) : Prop :=
  forall s, host (final_state (m s)) = last_announced (trace_of (m s)) (host s).

(** ** A job that succeeds *)


(** ** The connection to the master *)

Definition is_close (e : event) : bool :=
  match e with CloseConnection _ => true | _ => false end.

(** The event does not touch a socket other than [fd]. *)
Definition uses_socket (fd : Z) (e : event) : bool :=
  match e with
  | BufRead fd' _ _ | BufWrite fd' _ _ | CloseConnection fd' => fd' =? fd
  | _ => true
  end.

(** The peer offers a socket that the result-send protocol can use: a
    UDS path on this host, or a port. *)
Definition offers_socket (s : slave) (peer : peerlist_t) : bool :=
  (negb (String.length (h_socket (peer_host peer)) =? 0)%nat
   && String.eqb (h_name (peer_host peer)) (h_name (host s)))
  || (h_port (peer_host peer) >? 0).

(** ** What the command line asks for *)

(** A result of [getopt_long] that the [switch] accepts. *)
Definition valid_option (r : getopt_t) : bool :=
  match r with
  | GetoptFlag => true
  | GetoptValue c _ => (1 <=? c) && (c <=? 14)
  | GetoptInvalid => false
  end.

Definition is_flag (r : getopt_t) : bool :=
  match r with GetoptFlag => true | _ => false end.

(** The argument of the last occurrence of the option with code [c]. *)
Fixpoint last_value (c : Z) (results : list getopt_t) : option string :=
  match results with
  | [] => None
  | r :: rest =>
      match last_value c rest with
      | Some v => Some v
      | None =>
          match r with
          | GetoptValue c' v => if c' =? c then Some v else None
          | _ => None
          end
      end
  end.

(** ** The children that the supervisor starts *)

(** The host ids of [k] successive forks, from the host id [h]. *)
Fixpoint ids_from (h : Z) (k : nat) : list Z :=
  match k with
  | O => []
  | S k' => to_uint (h + 1) :: ids_from (to_uint (h + 1)) k'
  end.

(** What one pass that forks a child with host id [id] does. *)
Definition fork_pass (id : Z) : list event :=
  [Lock mutexhost; Unlock mutexhost; Fork id; ThreadSleep].

(** ** The log mask (lines 104-108 and 250-281) *)

(** The priorities of syslog.h and its macro
    [LOG_MASK(pri) = (1 << (pri))]. *)
Definition LOG_EMERG : Z := 0.
Definition LOG_ALERT : Z := 1.
Definition LOG_CRIT : Z := 2.
Definition LOG_ERR : Z := 3.
Definition LOG_WARNING : Z := 4.
Definition LOG_NOTICE : Z := 5.
Definition LOG_INFO : Z := 6.
Definition LOG_DEBUG : Z := 7.

Definition LOG_MASK (pri : Z) : Z := Z.shiftl 1 pri.

(** Line 107: the mask that [main] sets first; the comment in the source
    says that it is the one of verbose level 4. *)
Definition default_logmask : Z :=
  Z.lor (Z.lor (Z.lor (LOG_MASK LOG_EMERG) (LOG_MASK LOG_ALERT))
               (LOG_MASK LOG_CRIT)) (LOG_MASK LOG_ERR).

(** Lines 254-279: the argument of [setlogmask] for the value of
    [syslog_level], or [None] when the [switch] has no case for it and
    [setlogmask] is not called. *)
Definition verbose_logmask (syslog_level : Z) : option Z :=
  if syslog_level =? 0 then
    Some (Z.lor (Z.lor (Z.lor (Z.lor (Z.lor (Z.lor (Z.lor
      (LOG_MASK LOG_EMERG) (LOG_MASK LOG_ALERT)) (LOG_MASK LOG_CRIT))
      (LOG_MASK LOG_ERR)) (LOG_MASK LOG_WARNING)) (LOG_MASK LOG_NOTICE))
      (LOG_MASK LOG_INFO)) (LOG_MASK LOG_DEBUG))
  else if syslog_level =? 1 then
    Some (Z.lor (Z.lor (Z.lor (Z.lor (Z.lor (Z.lor
      (LOG_MASK LOG_EMERG) (LOG_MASK LOG_ALERT)) (LOG_MASK LOG_CRIT))
      (LOG_MASK LOG_ERR)) (LOG_MASK LOG_WARNING)) (LOG_MASK LOG_NOTICE))
      (LOG_MASK LOG_INFO))
  else if syslog_level =? 2 then
    Some (Z.lor (Z.lor (Z.lor (Z.lor (Z.lor
      (LOG_MASK LOG_EMERG) (LOG_MASK LOG_ALERT)) (LOG_MASK LOG_CRIT))
      (LOG_MASK LOG_ERR)) (LOG_MASK LOG_WARNING)) (LOG_MASK LOG_NOTICE))
  else if syslog_level =? 3 then
    Some (Z.lor (Z.lor (Z.lor (Z.lor
      (LOG_MASK LOG_EMERG) (LOG_MASK LOG_ALERT)) (LOG_MASK LOG_CRIT))
      (LOG_MASK LOG_ERR)) (LOG_MASK LOG_WARNING))
  else if syslog_level =? 4 then
    Some (Z.lor (Z.lor (Z.lor
      (LOG_MASK LOG_EMERG) (LOG_MASK LOG_ALERT)) (LOG_MASK LOG_CRIT))
      (LOG_MASK LOG_ERR))
  else if syslog_level =? 5 then
    Some (Z.lor (Z.lor
      (LOG_MASK LOG_EMERG) (LOG_MASK LOG_ALERT)) (LOG_MASK LOG_CRIT))
  else if syslog_level =? 6 then
    Some (Z.lor (LOG_MASK LOG_EMERG) (LOG_MASK LOG_ALERT))
  else if syslog_level =? 7 then
    Some (LOG_MASK LOG_EMERG)
  else None.

(** The mask in force after lines 104-281, for the value that
    [syslog_level] got from the [verbose] option ([None] when the option
    was not given). *)
Definition logmask_after (syslog_level : option Z) : Z :=
  match syslog_level with
  | Some level => default default_logmask (verbose_logmask level)
  | None => default_logmask
  end.

(** ** The configuration of one slave (lines 366-480) *)

(** The fields of [config_t], by the code of their option. *)
Definition conf_memavail (c : config_t) : option string := conf_field c 1.
Definition conf_cpuavail (c : config_t) : option string := conf_field c 2.
Definition conf_timavail (c : config_t) : option string := conf_field c 3.
Definition conf_hostname (c : config_t) : option string := conf_field c 4.
Definition conf_group (c : config_t) : option string := conf_field c 5.
Definition conf_allowuser (c : config_t) : option string := conf_field c 6.
Definition conf_allowhost (c : config_t) : option string := conf_field c 7.
Definition conf_allowgroup (c : config_t) : option string := conf_field c 8.
Definition conf_matlab (c : config_t) : option string := conf_field c 9.
Definition conf_smartmem (c : config_t) : option string := conf_field c 10.
Definition conf_smartcpu (c : config_t) : option string := conf_field c 11.
Definition conf_smartshare (c : config_t) : option string := conf_field c 12.
Definition conf_timeout (c : config_t) : option string := conf_field c 13.

(** What [strncpy(dst, src, STRLEN)] writes to the [STRLEN] bytes of
    [dst]: the string [src] and its terminator when [src] is shorter than
    [STRLEN]; else the first [STRLEN] characters of [src], and no
    terminator. *)
Inductive copied :=
| Terminated (s : string)
| Unterminated (first : string).

Definition strncpy (STRLEN : nat) (src : string) : copied :=
  if (String.length src <? STRLEN)%nat then Terminated src
  else Unterminated (String.substring 0 STRLEN src).

(** The successive results of [strtok(s, delim)], [strtok(NULL, delim)],
    ... up to the first [NULL], for a single delimiter: the pieces of [s]
    between delimiters that are not empty.  [tok] is the piece that is
    being read, last character first. *)
Fixpoint tokens_of (delim : Ascii.ascii) (s : list Ascii.ascii)
    (tok : list Ascii.ascii) : list (list Ascii.ascii) :=
  match s with
  | [] => match tok with [] => [] | _ :: _ => [rev tok] end
  | c :: s' =>
      if Ascii.eqb c delim then
        match tok with
        | [] => tokens_of delim s' []
        | _ :: _ => rev tok :: tokens_of delim s' []
        end
      else tokens_of delim s' (c :: tok)
  end.

Definition strtok_all (s : string) (delim : Ascii.ascii) : list string :=
  map String.string_of_list_ascii
    (tokens_of delim (String.list_ascii_of_string s) []).

(** The variables that the configuration assigns. *)
Record settings := {
  cf_memavail : Z;                  (* host->memavail *)
  cf_cpuavail : Z;                  (* host->cpuavail *)
  cf_timavail : Z;                  (* host->timavail *)
  cf_name : copied;                 (* host->name *)
  cf_group : copied;                (* host->group *)
  cf_smartmem : Z;                  (* smartmem.enabled *)
  cf_smartcpu : Z;                  (* smartcpu.enabled *)
  cf_smartshare : Z;                (* smartshare.enabled *)
  cf_userlist : list copied;        (* userlist *)
  cf_hostlist : list copied;        (* hostlist *)
  cf_grouplist : list copied;       (* grouplist *)
  cf_startcmd : option copied;      (* startcmd, [None] is NULL *)
  cf_enginetimeout : Z              (* enginetimeout *)
}.

Definition set_cf_memavail (v : Z) (st : settings) : settings :=
  {| cf_memavail := v; cf_cpuavail := cf_cpuavail st;
     cf_timavail := cf_timavail st; cf_name := cf_name st;
     cf_group := cf_group st; cf_smartmem := cf_smartmem st;
     cf_smartcpu := cf_smartcpu st; cf_smartshare := cf_smartshare st;
     cf_userlist := cf_userlist st; cf_hostlist := cf_hostlist st;
     cf_grouplist := cf_grouplist st; cf_startcmd := cf_startcmd st;
     cf_enginetimeout := cf_enginetimeout st |}.

Definition set_cf_cpuavail (v : Z) (st : settings) : settings :=
  {| cf_memavail := cf_memavail st; cf_cpuavail := v;
     cf_timavail := cf_timavail st; cf_name := cf_name st;
     cf_group := cf_group st; cf_smartmem := cf_smartmem st;
     cf_smartcpu := cf_smartcpu st; cf_smartshare := cf_smartshare st;
     cf_userlist := cf_userlist st; cf_hostlist := cf_hostlist st;
     cf_grouplist := cf_grouplist st; cf_startcmd := cf_startcmd st;
     cf_enginetimeout := cf_enginetimeout st |}.

Definition set_cf_timavail (v : Z) (st : settings) : settings :=
  {| cf_memavail := cf_memavail st; cf_cpuavail := cf_cpuavail st;
     cf_timavail := v; cf_name := cf_name st; cf_group := cf_group st;
     cf_smartmem := cf_smartmem st; cf_smartcpu := cf_smartcpu st;
     cf_smartshare := cf_smartshare st; cf_userlist := cf_userlist st;
     cf_hostlist := cf_hostlist st; cf_grouplist := cf_grouplist st;
     cf_startcmd := cf_startcmd st; cf_enginetimeout := cf_enginetimeout st |}.

Definition set_cf_name (v : copied) (st : settings) : settings :=
  {| cf_memavail := cf_memavail st; cf_cpuavail := cf_cpuavail st;
     cf_timavail := cf_timavail st; cf_name := v; cf_group := cf_group st;
     cf_smartmem := cf_smartmem st; cf_smartcpu := cf_smartcpu st;
     cf_smartshare := cf_smartshare st; cf_userlist := cf_userlist st;
     cf_hostlist := cf_hostlist st; cf_grouplist := cf_grouplist st;
     cf_startcmd := cf_startcmd st; cf_enginetimeout := cf_enginetimeout st |}.

Definition set_cf_group (v : copied) (st : settings) : settings :=
  {| cf_memavail := cf_memavail st; cf_cpuavail := cf_cpuavail st;
     cf_timavail := cf_timavail st; cf_name := cf_name st; cf_group := v;
     cf_smartmem := cf_smartmem st; cf_smartcpu := cf_smartcpu st;
     cf_smartshare := cf_smartshare st; cf_userlist := cf_userlist st;
     cf_hostlist := cf_hostlist st; cf_grouplist := cf_grouplist st;
     cf_startcmd := cf_startcmd st; cf_enginetimeout := cf_enginetimeout st |}.

Definition set_cf_smartmem (v : Z) (st : settings) : settings :=
  {| cf_memavail := cf_memavail st; cf_cpuavail := cf_cpuavail st;
     cf_timavail := cf_timavail st; cf_name := cf_name st;
     cf_group := cf_group st; cf_smartmem := v;
     cf_smartcpu := cf_smartcpu st; cf_smartshare := cf_smartshare st;
     cf_userlist := cf_userlist st; cf_hostlist := cf_hostlist st;
     cf_grouplist := cf_grouplist st; cf_startcmd := cf_startcmd st;
     cf_enginetimeout := cf_enginetimeout st |}.

Definition set_cf_smartcpu (v : Z) (st : settings) : settings :=
  {| cf_memavail := cf_memavail st; cf_cpuavail := cf_cpuavail st;
     cf_timavail := cf_timavail st; cf_name := cf_name st;
     cf_group := cf_group st; cf_smartmem := cf_smartmem st;
     cf_smartcpu := v; cf_smartshare := cf_smartshare st;
     cf_userlist := cf_userlist st; cf_hostlist := cf_hostlist st;
     cf_grouplist := cf_grouplist st; cf_startcmd := cf_startcmd st;
     cf_enginetimeout := cf_enginetimeout st |}.

Definition set_cf_smartshare (v : Z) (st : settings) : settings :=
  {| cf_memavail := cf_memavail st; cf_cpuavail := cf_cpuavail st;
     cf_timavail := cf_timavail st; cf_name := cf_name st;
     cf_group := cf_group st; cf_smartmem := cf_smartmem st;
     cf_smartcpu := cf_smartcpu st; cf_smartshare := v;
     cf_userlist := cf_userlist st; cf_hostlist := cf_hostlist st;
     cf_grouplist := cf_grouplist st; cf_startcmd := cf_startcmd st;
     cf_enginetimeout := cf_enginetimeout st |}.

Definition set_cf_userlist (v : list copied) (st : settings) : settings :=
  {| cf_memavail := cf_memavail st; cf_cpuavail := cf_cpuavail st;
     cf_timavail := cf_timavail st; cf_name := cf_name st;
     cf_group := cf_group st; cf_smartmem := cf_smartmem st;
     cf_smartcpu := cf_smartcpu st; cf_smartshare := cf_smartshare st;
     cf_userlist := v; cf_hostlist := cf_hostlist st;
     cf_grouplist := cf_grouplist st; cf_startcmd := cf_startcmd st;
     cf_enginetimeout := cf_enginetimeout st |}.

Definition set_cf_hostlist (v : list copied) (st : settings) : settings :=
  {| cf_memavail := cf_memavail st; cf_cpuavail := cf_cpuavail st;
     cf_timavail := cf_timavail st; cf_name := cf_name st;
     cf_group := cf_group st; cf_smartmem := cf_smartmem st;
     cf_smartcpu := cf_smartcpu st; cf_smartshare := cf_smartshare st;
     cf_userlist := cf_userlist st; cf_hostlist := v;
     cf_grouplist := cf_grouplist st; cf_startcmd := cf_startcmd st;
     cf_enginetimeout := cf_enginetimeout st |}.

Definition set_cf_grouplist (v : list copied) (st : settings) : settings :=
  {| cf_memavail := cf_memavail st; cf_cpuavail := cf_cpuavail st;
     cf_timavail := cf_timavail st; cf_name := cf_name st;
     cf_group := cf_group st; cf_smartmem := cf_smartmem st;
     cf_smartcpu := cf_smartcpu st; cf_smartshare := cf_smartshare st;
     cf_userlist := cf_userlist st; cf_hostlist := cf_hostlist st;
     cf_grouplist := v; cf_startcmd := cf_startcmd st;
     cf_enginetimeout := cf_enginetimeout st |}.

Definition set_cf_startcmd (v : option copied) (st : settings) : settings :=
  {| cf_memavail := cf_memavail st; cf_cpuavail := cf_cpuavail st;
     cf_timavail := cf_timavail st; cf_name := cf_name st;
     cf_group := cf_group st; cf_smartmem := cf_smartmem st;
     cf_smartcpu := cf_smartcpu st; cf_smartshare := cf_smartshare st;
     cf_userlist := cf_userlist st; cf_hostlist := cf_hostlist st;
     cf_grouplist := cf_grouplist st; cf_startcmd := v;
     cf_enginetimeout := cf_enginetimeout st |}.

Definition set_cf_enginetimeout (v : Z) (st : settings) : settings :=
  {| cf_memavail := cf_memavail st; cf_cpuavail := cf_cpuavail st;
     cf_timavail := cf_timavail st; cf_name := cf_name st;
     cf_group := cf_group st; cf_smartmem := cf_smartmem st;
     cf_smartcpu := cf_smartcpu st; cf_smartshare := cf_smartshare st;
     cf_userlist := cf_userlist st; cf_hostlist := cf_hostlist st;
     cf_grouplist := cf_grouplist st; cf_startcmd := cf_startcmd st;
     cf_enginetimeout := v |}.

(** A block of the configuration: the settings after it and the mutex
    calls it makes. *)
Definition block : Type := settings -> settings * list event.

Definition under (m : mutex) (f : settings -> settings) : block :=
  fun st => (f st, [Lock m; Unlock m]).

Definition unlocked (f : settings -> settings) : block :=
  fun st => (f st, []).

Definition nothing : block := fun st => (st, []).

Fixpoint blocks (bs : list block) : block :=
  fun st =>
    match bs with
    | [] => (st, [])
    | b :: bs' =>
        let '(st1, t1) := b st in
        let '(st2, t2) := blocks bs' st1 in
        (st2, t1 ++ t2)
    end.

(** Lines 404-415 (and the two loops after it): one list node per
    result of [strtok], each put in front of the list. *)
Fixpoint allow_loop (STRLEN : nat) (strs : list string) (l : list copied)
  : list copied :=
  match strs with
  | [] => l
  | str :: strs' => allow_loop STRLEN strs' (strncpy STRLEN str :: l)
  end.

(** Lines 366-480.  [atol] is the function of the C library, [STRLEN]
    the constant of peer.h, and [as_enabled] the conversion of a [long]
    to the type that peer.h gives to the field [enabled] of the three
    policy switches; the resources are 64-bit unsigned, [enginetimeout]
    is an [unsigned int]. *)
Definition configure (atol : string -> Z) (STRLEN : nat)
    (as_enabled : Z -> Z) (cconf : config_t) : block :=
  blocks [
    match conf_memavail cconf with
    | Some v =>
        blocks [under mutexhost (set_cf_memavail (wrap RESOURCE_BITS (atol v)));
                under mutexsmartmem (set_cf_smartmem (as_enabled 0))]
    | None => nothing
    end;
    match conf_cpuavail cconf with
    | Some v => under mutexhost (set_cf_cpuavail (wrap RESOURCE_BITS (atol v)))
    | None => nothing
    end;
    match conf_timavail cconf with
    | Some v => under mutexhost (set_cf_timavail (wrap RESOURCE_BITS (atol v)))
    | None => nothing
    end;
    match conf_hostname cconf with
    | Some v => under mutexhost (set_cf_name (strncpy STRLEN v))
    | None => nothing
    end;
    match conf_group cconf with
    | Some v => under mutexhost (set_cf_group (strncpy STRLEN v))
    | None => nothing
    end;
    match conf_allowuser cconf with
    | Some v =>
        unlocked (fun st =>
          set_cf_userlist (allow_loop STRLEN (strtok_all v ","%char) (cf_userlist st)) st)
    | None => nothing
    end;
    match conf_allowhost cconf with
    | Some v =>
        unlocked (fun st =>
          set_cf_hostlist (allow_loop STRLEN (strtok_all v ","%char) (cf_hostlist st)) st)
    | None => nothing
    end;
    match conf_allowgroup cconf with
    | Some v =>
        unlocked (fun st =>
          set_cf_grouplist (allow_loop STRLEN (strtok_all v ","%char) (cf_grouplist st)) st)
    | None => nothing
    end;
    match conf_matlab cconf with
    | Some v => unlocked (set_cf_startcmd (Some (strncpy STRLEN v)))
    | None => unlocked (set_cf_startcmd (Some (strncpy STRLEN STARTCMD)))
    end;
    match conf_smartmem cconf with
    | Some v => under mutexsmartmem (set_cf_smartmem (as_enabled (atol v)))
    | None => nothing
    end;
    match conf_smartcpu cconf with
    | Some v => under mutexsmartcpu (set_cf_smartcpu (as_enabled (atol v)))
    | None => nothing
    end;
    match conf_smartshare cconf with
    | Some v => under mutexsmartshare (set_cf_smartshare (as_enabled (atol v)))
    | None => nothing
    end;
    match conf_timeout cconf with
    | Some v => unlocked (set_cf_enginetimeout (to_uint (atol v)))
    | None => nothing
    end
  ].

(** ** The usage message (lines 45-69) and the table of options (lines 128-145) *)

(** [print_help]: the lines that it prints, one per [printf]. *)
Definition print_help (argv0 : string) : list string :=
  [ "";
    "This starts a FieldTrip peer-to-peer distributed computing peer, which";
    "will wait for an incoming job and subsequently start the MATLAB engine and";
    "evaluate the job. Use as";
    ("  " +:+ argv0 +:+ " [options]")%string;
    "where the options can include";
    "  --number      = number, number of slaves to start        (default = 1)";
    "  --memavail    = number, amount of memory available       (default = inf)";
    "  --cpuavail    = number, speed of the CPU                 (default = inf)";
    "  --timavail    = number, maximum duration of a single job (default = inf)";
    "  --allowhost   = {...}";
    "  --allowuser   = {...}";
    "  --allowgroup  = {...}";
    "  --group       = string";
    "  --hostname    = string";
    "  --matlab      = string";
    "  --timeout     = number, time to keep the engine running after the job finished";
    "  --smartshare  = 0|1";
    "  --smartmem    = 0|1";
    "  --smartcpu    = 0|1";
    "  --verbose     = number, between 0 and 7 (default = 4)";
    "  --help";
    "" ]%string.

(** An entry of [long_options]: [struct option] of getopt.h, where
    [opt_flag] says whether the [flag] pointer is set (it is [&help_flag]
    where it is). *)
Inductive has_arg_t := no_argument | required_argument.

Record option_t := {
  opt_name : string;
  opt_has_arg : has_arg_t;
  opt_flag : bool;
  opt_val : Z
}.

Definition long_options : list option_t :=
  [ {| opt_name := "help"; opt_has_arg := no_argument; opt_flag := true; opt_val := 1 |};
    {| opt_name := "memavail"; opt_has_arg := required_argument; opt_flag := false; opt_val := 1 |};
    {| opt_name := "cpuavail"; opt_has_arg := required_argument; opt_flag := false; opt_val := 2 |};
    {| opt_name := "timavail"; opt_has_arg := required_argument; opt_flag := false; opt_val := 3 |};
    {| opt_name := "hostname"; opt_has_arg := required_argument; opt_flag := false; opt_val := 4 |};
    {| opt_name := "group"; opt_has_arg := required_argument; opt_flag := false; opt_val := 5 |};
    {| opt_name := "allowuser"; opt_has_arg := required_argument; opt_flag := false; opt_val := 6 |};
    {| opt_name := "allowhost"; opt_has_arg := required_argument; opt_flag := false; opt_val := 7 |};
    {| opt_name := "allowgroup"; opt_has_arg := required_argument; opt_flag := false; opt_val := 8 |};
    {| opt_name := "matlab"; opt_has_arg := required_argument; opt_flag := false; opt_val := 9 |};
    {| opt_name := "smartmem"; opt_has_arg := required_argument; opt_flag := false; opt_val := 10 |};
    {| opt_name := "smartcpu"; opt_has_arg := required_argument; opt_flag := false; opt_val := 11 |};
    {| opt_name := "smartshare"; opt_has_arg := required_argument; opt_flag := false; opt_val := 12 |};
    {| opt_name := "timeout"; opt_has_arg := required_argument; opt_flag := false; opt_val := 13 |};
    {| opt_name := "verbose"; opt_has_arg := required_argument; opt_flag := false; opt_val := 14 |} ].

(** The characters of [s] before its first space. *)
Fixpoint until_space (s : string) : string :=
  match s with
  | EmptyString => EmptyString
  | String c s' =>
      if Ascii.eqb c " " then EmptyString else String c (until_space s')
  end.

(** The option that a line of the usage message describes: the name that
    follows ["  --"]. *)
Definition advertised_option (line : string) : option string :=
  if String.prefix "  --" line
  then Some (until_space (String.substring 4 (String.length line - 4) line))
  else None.

Definition advertised (lines : list string) : list string :=
  omap advertised_option lines.

(** What [getopt_long] returns for an entry of the table with the given
    argument: 0 for an entry with a flag, else the entry's [val]. *)
Definition getopt_result (o : option_t) (optarg : string) : getopt_t :=
  if opt_flag o then GetoptFlag else GetoptValue (opt_val o) optarg.

(** ** More inputs for the result-send protocol and the zombie period *)

(** The network [n] with another outcome of the four writes. *)
Definition set_bufwrite (bw : nat -> Z) (n : network) : network :=
  {| peerlist := peerlist n;
     open_uds_connection := open_uds_connection n;
     open_tcp_connection := open_tcp_connection n;
     bufread := bufread n;
     bufwrite := bw |}.

(** Every segment that is written is followed by the read of a
    handshake. *)
Fixpoint write_then_read (tr : list event) : bool :=
  match tr with
  | [] => true
  | BufWrite _ _ _ :: tr' => existsb is_read tr' && write_then_read tr'
  | _ :: tr' => write_then_read tr'
  end.


(** * Proofs *)

#[local] Arguments sizeof_int : simpl never.
#[local] Arguments to_uint : simpl never.
#[local] Arguments to_int : simpl never.
#[local] Arguments compute_timallow : simpl never.
#[local] Arguments inject_options : simpl never.

(** ** Sequencing *)

Section Sequencing.
Context {A B : Type}.

Lemma final_state_bind (m : M A) (k : A -> M B) (s : slave) :
  final_state ((m ≫= k) s) = final_state (k (m s).1.1 (final_state (m s))).
Proof.
  unfold final_state, mbind, M_bind.
  destruct (m s) as [[a s1] t1]; simpl.
  destruct (k a s1) as [[b s2] t2]; reflexivity.
Qed.

Lemma trace_of_bind (m : M A) (k : A -> M B) (s : slave) :
  trace_of ((m ≫= k) s)
  = trace_of (m s) ++ trace_of (k (m s).1.1 (final_state (m s))).
Proof.
  unfold trace_of, final_state, mbind, M_bind.
  destruct (m s) as [[a s1] t1]; simpl.
  destruct (k a s1) as [[b s2] t2]; reflexivity.
Qed.

Lemma result_bind (m : M A) (k : A -> M B) (s : slave) :
  ((m ≫= k) s).1.1 = (k (m s).1.1 (final_state (m s))).1.1.
Proof.
  unfold final_state, mbind, M_bind.
  destruct (m s) as [[a s1] t1]; simpl.
  destruct (k a s1) as [[b s2] t2]; reflexivity.
Qed.

Lemma emits_bind (p : event -> bool) (m : M A) (k : A -> M B) :
  emits p m -> (forall a, emits p (k a)) -> emits p (m ≫= k).
Proof.
  intros Hm Hk s. rewrite trace_of_bind, forallb_app, Hm, Hk. reflexivity.
Qed.

Lemma keeps_bind {T} (f : slave -> T) (m : M A) (k : A -> M B) :
  keeps f m -> (forall a, keeps f (k a)) -> keeps f (m ≫= k).
Proof.
  intros Hm Hk s. rewrite final_state_bind, Hk, Hm. reflexivity.
Qed.
End Sequencing.

Lemma locking_app (rule : list mutex -> event -> bool) (t1 t2 : list event)
    (held : list mutex) :
  locking rule held (t1 ++ t2)
  = match locking rule held t1 with
    | Some held' => locking rule held' t2
    | None => None
    end.
Proof.
  revert held. induction t1 as [|e t1 IH]; intros held; simpl.
  - reflexivity.
  - destruct (rule held e); [apply IH | reflexivity].
Qed.

Lemma locks_well_bind {A B} (m : M A) (k : A -> M B) :
  locks_well m -> (forall a, locks_well (k a)) -> locks_well (m ≫= k).
Proof.
  intros Hm Hk s. rewrite trace_of_bind, locking_app, Hm. apply Hk.
Qed.

(** An event that [p] excludes is not in a trace whose events satisfy [p]. *)
Lemma forallb_excludes (p : event -> bool) (tr : list event) (e : event) :
  forallb p tr = true -> e ∈ tr -> p e = true.
Proof.
  intros H Hin. rewrite forallb_forall in H. apply H.
  apply list_elem_of_In. exact Hin.
Qed.

Lemma forallb_weaken (p q : event -> bool) (tr : list event) :
  forallb p tr = true -> (forall e, p e = true -> q e = true) ->
  forallb q tr = true.
Proof.
  intros H Hpq. rewrite forallb_forall in *. intros e He. apply Hpq, H, He.
Qed.

(** ** Tactics for the case analysis of one phase *)

Ltac run_M :=
  cbv [mbind M_bind mret M_ret emit get modify skip lock unlock update_host
       announce_once publish_status jobcount clear_joblist receive
       final_state trace_of fst snd].

(** Case analysis on a test of the program whose outcome is not known,
    innermost test first. *)
Ltac crunch_step :=
  match goal with
  | |- context [match ?x with _ => _ end] =>
      lazymatch x with
      | context [match _ with _ => _ end] => fail
      | _ => destruct x eqn:?
      end
  end.

Ltac crunch := repeat (crunch_step; cbn).

(** Hides the property to prove of [let r := m s in ...] while the tests
    of [m s] are analysed. *)
Ltac start_crunch :=
  match goal with
  | |- let r := _ in _ =>
      intros r; pattern r;
      match goal with |- ?Q r => remember Q as P eqn:HP end;
      subst r
  end.

Ltac end_crunch :=
  match goal with
  | HP : ?P = _ |- ?P _ => subst P; cbn [final_state trace_of fst snd]
  end.

Ltac use_tests :=
  repeat match goal with
         | H : _ = true |- _ => rewrite H
         | H : _ = false |- _ => rewrite H
         end.

(** Inverts [e ∈ tr] for a trace [tr] that is a list of known events. *)
Ltac in_trace H :=
  repeat (apply elem_of_cons in H as [H|H];
          [try discriminate H; try (injection H as ->; reflexivity)|]);
  try (apply elem_of_nil in H; contradiction).

(** ** The phases one by one *)

Lemma bystander_bind {A B} (m : M A) (k : A -> M B) :
  bystander m -> (forall a, bystander (k a)) -> bystander (m ≫= k).
Proof.
  intros (He & Hj & Ha) Hk. repeat split.
  - apply emits_bind; [exact He | intros a; apply Hk].
  - apply keeps_bind; [exact Hj | intros a; apply Hk].
  - apply keeps_bind; [exact Ha | intros a; apply Hk].
Qed.

Lemma receive_bystander (jobs : list joblist_t) : bystander (receive jobs).
Proof. repeat split; intros s; reflexivity. Qed.

Lemma close_idle_engine_bystander (w : world) : bystander (close_idle_engine w).
Proof.
  repeat split; intros s; destruct s; unfold close_idle_engine; run_M; cbn;
    crunch; reflexivity.
Qed.

Lemma start_engine_bystander (w : world) : bystander (start_engine w).
Proof.
  repeat split; intros s; destruct s; unfold start_engine; run_M; cbn;
    crunch; reflexivity.
Qed.

Lemma note_failure_bystander : bystander note_failure.
Proof.
  repeat split; intros s; destruct s; unfold note_failure; run_M; cbn;
    crunch; reflexivity.
Qed.

Lemma synthesize_error_bystander : bystander synthesize_error.
Proof.
  repeat split; intros s; destruct s; unfold synthesize_error; run_M; cbn;
    crunch; reflexivity.
Qed.

Lemma cleanup_bystander : bystander cleanup.
Proof.
  repeat split; intros s; destruct s; unfold cleanup; run_M; cbn;
    crunch; reflexivity.
Qed.

Lemma finish_job_bystander (w : world) : bystander (finish_job w).
Proof.
  repeat split; intros s; destruct s; unfold finish_job; run_M; cbn;
    crunch; reflexivity.
Qed.

(** The result-send protocol: what it leaves alone, its locking, and what
    follows a bad handshake or a short write. *)
Lemma send_results_spec (w : world) (n : network) (s : slave) :
  let r := send_results w n s in
  final_state r = with_send_vars (final_state r) s
  /\ locking slave_rule [] (trace_of r) = Some []
  /\ forallb (fun e => negb (is_engine_call e || is_announce e)) (trace_of r) = true
  /\ after_bad_handshake is_socket_io (trace_of r) = true
  /\ after_short_write w is_write (trace_of r) = true.
Proof.
  destruct s. start_crunch.
  unfold send_results, send_message, read_handshake, write_segment.
  run_M. cbn. crunch.
  all: end_crunch; repeat split; try reflexivity.
  all: repeat (progress (cbn; unfold bad_handshake; use_tests));
    repeat match goal with |- context [if ?c then _ else _] => destruct c end;
    reflexivity.
Qed.

Lemma send_results_bystander (w : world) (n : network) :
  bystander (send_results w n).
Proof.
  repeat split; intros s;
    destruct (send_results_spec w n s) as (Hf & _ & He & _).
  - apply (forallb_weaken _ _ _ He).
    intros []; cbn; try reflexivity; discriminate.
  - rewrite Hf. reflexivity.
  - rewrite Hf. reflexivity.
Qed.

(** ** Locking *)

Ltac locks_by_cases unfolding :=
  let s := fresh "s" in
  intros s; destruct s;
  match goal with
  | |- locking _ _ (trace_of ?m) = _ =>
      change (let r := m in locking slave_rule [] (trace_of r) = Some [])
  end;
  start_crunch; unfolding; run_M; cbn; crunch; end_crunch; reflexivity.

Lemma close_idle_engine_locks (w : world) : locks_well (close_idle_engine w).
Proof. locks_by_cases ltac:(unfold close_idle_engine). Qed.

Lemma start_engine_locks (w : world) : locks_well (start_engine w).
Proof. locks_by_cases ltac:(unfold start_engine). Qed.

Lemma run_job_locks (w : world) : locks_well (run_job w).
Proof.
  locks_by_cases ltac:(unfold run_job, take_job, execute_job).
Qed.

Lemma note_failure_locks : locks_well note_failure.
Proof. locks_by_cases ltac:(unfold note_failure). Qed.

Lemma synthesize_error_locks : locks_well synthesize_error.
Proof. locks_by_cases ltac:(unfold synthesize_error). Qed.

Lemma send_results_locks (w : world) (n : network) : locks_well (send_results w n).
Proof. intros s. apply send_results_spec. Qed.

Lemma cleanup_locks : locks_well cleanup.
Proof. locks_by_cases ltac:(unfold cleanup). Qed.

Lemma finish_job_locks (w : world) : locks_well (finish_job w).
Proof. locks_by_cases ltac:(unfold finish_job). Qed.

Lemma process_job_locks (w : world) : locks_well (process_job w).
Proof.
  unfold process_job.
  apply locks_well_bind; [apply start_engine_locks | intros _].
  apply locks_well_bind; [apply run_job_locks | intros _].
  apply locks_well_bind; [apply note_failure_locks | intros _].
  apply synthesize_error_locks.
Qed.

Lemma return_results_locks (w : world) (n : network) :
  locks_well (return_results w n).
Proof.
  unfold return_results.
  apply locks_well_bind; [apply send_results_locks | intros _].
  apply locks_well_bind; [apply cleanup_locks | intros _].
  apply finish_job_locks.
Qed.

Lemma slave_iteration_locks (w : world) (n : network) :
  locks_well (slave_iteration w n).
Proof.
  unfold slave_iteration.
  apply locks_well_bind; [apply close_idle_engine_locks | intros _].
  apply locks_well_bind; [intros s; reflexivity | intros s].
  destruct (zombie_expired w s).
  - intros s'. reflexivity.
  - apply locks_well_bind; [intros s'; reflexivity | intros c].
    destruct (c >? 0).
    + apply locks_well_bind; [apply process_job_locks | intros _].
      apply return_results_locks.
    + intros s'. reflexivity.
Qed.

(** C7, as amended: entered with no mutex held, every iteration of the
    slave loop follows [slave_rule] and ends with no mutex held.  At most
    two mutexes are held at a time, [mutexhost] inside [mutexjoblist] or
    inside [mutexpeerlist]; the host descriptor is written to the socket
    under [mutexhost] and the connection to the master is opened under
    [mutexpeerlist]; no mutex is held across an engine call, across a
    handshake read, or across the write of another segment. *)
Theorem slave_iteration_locking (w : world) (n : network) (s : slave) :
  locking slave_rule [] (trace_of (slave_iteration w n s)) = Some [].
Proof. apply slave_iteration_locks. Qed.

(** C7, as stated, fails: in an ordinary iteration (the engine starts, the
    job runs, the results are sent over TCP) the rule of the spec is
    broken; the first offence is [mutexhost] locked inside
    [mutexjoblist]. *)
Lemma spec_locking_rule_broken :
  locking spec_rule []
    (trace_of (slave_iteration ex_world ex_network (ex_slave [ex_job 7 10])))
  = None
  /\ take 4 (trace_of (slave_iteration ex_world ex_network (ex_slave [ex_job 7 10])))
     = [Jobcount; EngOpen STARTCMD; Lock mutexjoblist; Lock mutexhost].
Proof. split; vm_compute; reflexivity. Qed.

(** ** The allowance and the options of the watchdog *)

Lemma to_int_small (x : Z) : - 2 ^ 31 <= x <= INT_MAX -> to_int x = x.
Proof.
  unfold to_int, INT_MAX. intros H.
  rewrite Z.mod_small by lia. lia.
Qed.

Lemma wrap_small (w x : Z) : 0 <= x < 2 ^ w -> wrap w x = x.
Proof. intros H. unfold wrap. apply Z.mod_small. exact H. Qed.

Lemma compute_timallow_min (timreq timavail : Z) :
  0 <= timreq -> 3 * timreq <= INT_MAX -> 0 <= timavail ->
  compute_timallow timreq timavail = Z.min (3 * timreq) timavail.
Proof.
  intros Hreq Hmax Havail.
  unfold compute_timallow, compute_timallow_w, RESOURCE_BITS, INT_MAX in *.
  rewrite (wrap_small 64 (3 * timreq)) by lia.
  rewrite (to_int_small (3 * timreq)) by (unfold INT_MAX; lia).
  rewrite (wrap_small 64 (3 * timreq)) by lia.
  destruct (Z.ltb_spec timavail (3 * timreq)).
  - rewrite to_int_small by (unfold INT_MAX; lia). lia.
  - lia.
Qed.

(** After [n] rounds of the copy loop the first [n] cells are those of
    [previous]. *)
Lemma copy_cells_prefix (cells l : list (option mxArray)) (n : nat) :
  (n <= length cells)%nat -> (n <= length l)%nat ->
  copy_cells (MxCell cells) n (MxCell l) = MxCell (take n cells ++ drop n l).
Proof.
  unfold copy_cells. induction n as [|n IH]; intros Hc Hl.
  - simpl. rewrite drop_0. reflexivity.
  - rewrite seq_S, foldl_app. cbn [foldl Nat.add]. rewrite IH by lia.
    cbn [mxSetCell mxGetCell].
    destruct (lookup_lt_is_Some_2 cells n ltac:(lia)) as [c Hcn].
    destruct (lookup_lt_is_Some_2 l n ltac:(lia)) as [x Hln].
    rewrite Hcn. simpl. f_equal.
    rewrite (take_S_r cells n c Hcn).
    rewrite (drop_S l x n Hln).
    rewrite <- app_assoc. simpl.
    rewrite insert_app_r_alt by (rewrite length_take; lia).
    rewrite length_take, Nat.min_l by lia.
    rewrite Nat.sub_diag. reflexivity.
Qed.

Lemma inject_options_cells (cells : list (option mxArray)) (peerid timallow : Z) :
  inject_options (MxCell cells) peerid timallow
  = MxCell (cells ++ [Some (MxString "masterid"); Some (MxDouble peerid);
                      Some (MxString "timallow"); Some (MxDouble timallow)]).
Proof.
  unfold inject_options, mxCreateCellMatrix, mxCreateString, mxCreateDoubleScalar.
  simpl mxNumel. rewrite Nat.mul_1_l.
  rewrite copy_cells_prefix by (rewrite ?length_replicate; lia).
  rewrite firstn_all, replicate_add, drop_app_length'
    by (rewrite length_replicate; reflexivity).
  simpl. f_equal.
  rewrite !insert_app_r_alt by lia.
  replace (length cells + 0 - length cells)%nat with 0%nat by lia.
  replace (length cells + 1 - length cells)%nat with 1%nat by lia.
  replace (length cells + 2 - length cells)%nat with 2%nat by lia.
  replace (length cells + 3 - length cells)%nat with 3%nat by lia.
  reflexivity.
Qed.

(** C1, as amended: for the job at the front of the queue, when
    [3*timreq] fits the [int] that holds it, [timallow] is
    [min(3*timreq, host.timavail)]; the options that reach the engine are
    the [n] submitted cells followed by ["masterid"], the submitter's host
    id, ["timallow"] and the allowance; and they do reach the engine
    whenever [argin] was copied to it. *)
Theorem run_job_timallow_options (w : world) (s : slave) (job : joblist_t)
    (rest : list joblist_t) (cells : list (option mxArray)) :
  joblist s = job :: rest ->
  matlabRunning s <> 0 ->
  0 <= d_timreq (job_job job) -> 3 * d_timreq (job_job job) <= INT_MAX ->
  0 <= h_timavail (host s) ->
  0 <= h_id (job_host job) < 2 ^ 32 ->
  mxDeserialize w (job_opt job) (d_optsize (job_job job)) = MxCell cells ->
  let r := run_job w s in
  let allowance := Z.min (3 * d_timreq (job_job job)) (h_timavail (host s)) in
  let extended :=
    MxCell (cells ++ [Some (MxString "masterid");
                      Some (MxDouble (h_id (job_host job)));
                      Some (MxString "timallow"); Some (MxDouble allowance)]) in
  timallow (final_state r) = allowance
  /\ (forall v, EngPutVariable "options" v ∈ trace_of r -> v = extended)
  /\ (engPutVariable_argin w = 0 -> EngPutVariable "options" extended ∈ trace_of r).
Proof.
  intros Hq Hrun Hreq Hmax Havail Hid Hopt r allowance extended.
  assert (Hta : compute_timallow (d_timreq (job_job job)) (h_timavail (host s))
                = allowance) by (apply compute_timallow_min; assumption).
  assert (Hpeer : to_uint (h_id (job_host job)) = h_id (job_host job))
    by (apply wrap_small; assumption).
  subst r. unfold run_job, take_job, execute_job.
  run_M. rewrite Hq.
  destruct (matlabRunning s =? 0) eqn:E; [apply Z.eqb_eq in E; contradiction|].
  cbn. rewrite Hopt, Hta, Hpeer, inject_options_cells. fold extended.
  destruct (engPutVariable_argin w =? 0) eqn:E1; cbn;
    [destruct (engPutVariable_options w =? 0) eqn:E2; cbn;
     [destruct (engEvalString w =? 0) eqn:E3; cbn;
      [destruct (engGetVariable_argout w) eqn:E4; cbn;
       [destruct (engGetVariable_options w) eqn:E5; cbn|]|]|]|].
  all: split; [reflexivity|split].
  all: try (intros v Hin; in_trace Hin).
  all: intros Hrc; try (apply Z.eqb_neq in E1; contradiction).
  all: rewrite ?elem_of_cons; auto 10.
Qed.

Lemma run_job_timallow_options_witness :
  timallow (final_state (run_job ex_world (set_matlabRunning 1 (ex_slave [ex_job 7 10]))))
  = 30
  /\ (forall v,
        EngPutVariable "options" v
          ∈ trace_of (run_job ex_world (set_matlabRunning 1 (ex_slave [ex_job 7 10]))) ->
        v = MxCell [Some (MxString "masterid"); Some (MxDouble 42);
                    Some (MxString "timallow"); Some (MxDouble 30)])
  /\ (engPutVariable_argin ex_world = 0 ->
      EngPutVariable "options"
        (MxCell [Some (MxString "masterid"); Some (MxDouble 42);
                 Some (MxString "timallow"); Some (MxDouble 30)])
        ∈ trace_of (run_job ex_world (set_matlabRunning 1 (ex_slave [ex_job 7 10])))).
Proof.
  apply (run_job_timallow_options ex_world
           (set_matlabRunning 1 (ex_slave [ex_job 7 10])) (ex_job 7 10) [] []).
  - reflexivity.
  - simpl. lia.
  - simpl. lia.
  - unfold INT_MAX. simpl. lia.
  - simpl. lia.
  - simpl. lia.
  - reflexivity.
Defined.

(** C1, as stated, fails: a job with [timreq = 2^30] on a host whose
    [timavail] is "inf" gets the allowance [-2^30], and not
    [min(3*2^30, timavail) = 3*2^30]: the product does not fit the [int].
    The same happens if the two fields are 32 bits wide. *)
Lemma timallow_overflows_int :
  timallow (final_state (run_job ex_world (ex_slave_unlimited [ex_job 7 (2 ^ 30)])))
  = - 2 ^ 30
  /\ Z.min (3 * 2 ^ 30) (h_timavail ex_host_unlimited) = 3 * 2 ^ 30
  /\ (forall v,
        EngPutVariable "options" v
          ∈ trace_of (run_job ex_world (ex_slave_unlimited [ex_job 7 (2 ^ 30)])) ->
        mxGetCell v 3 = Some (MxDouble (- 2 ^ 30)))
  /\ compute_timallow_w 32 (2 ^ 30) (2 ^ 32 - 1) = - 2 ^ 30.
Proof.
  split; [vm_compute; reflexivity|].
  split; [vm_compute; reflexivity|].
  split; [|vm_compute; reflexivity].
  intros v Hin. vm_compute in Hin. in_trace Hin.
Qed.

(** ** Failures of the engine steps *)

Ltac test_contradiction :=
  exfalso;
  repeat match goal with
         | H : negb _ = false |- _ => apply negb_false_iff in H
         | H : negb _ = true |- _ => apply negb_true_iff in H
         | H : (_ =? _) = true |- _ => apply Z.eqb_eq in H
         | H : (_ =? _) = false |- _ => apply Z.eqb_neq in H
         end;
  congruence.

Lemma run_job_step_failed (w : world) (s : slave) :
  engineAborted s = 0 ->
  let r := run_job w s in
  (forall k, step_failed w (trace_of r) k ->
             jobFailed (final_state r) = k
             /\ engineAborted (final_state r) = if 3 <=? k then 1 else 0)
  /\ (engineAborted (final_state r) <> 0 ->
      engineAborted (final_state r) = 1 /\ 3 <= jobFailed (final_state r) <= 5).
Proof.
  intros Ha. destruct s. cbn in Ha. subst. start_crunch.
  unfold run_job, take_job, execute_job. run_M. cbn. crunch.
  all: end_crunch; split; [|cbn; intros; try lia; contradiction].
  all: intros k Hk; cbn.
  all: destruct Hk as [(-> & [v Hin] & Hrc)|[(-> & [v Hin] & Hrc)|
         [(-> & [v Hin] & Hrc)|[(-> & Hin & Hrc)|(-> & Hin & Hrc)]]]].
  all: in_trace Hin.
  all: first [split; reflexivity | test_contradiction].
Qed.

Lemma bystander_runs_no_job {A} (w : world) (m : M A) :
  bystander m -> runs_one_job w m.
Proof. intros (He & _ & Ha) s. left. split; [apply He | apply Ha]. Qed.

Lemma run_job_runs_one_job (w : world) : runs_one_job w (run_job w).
Proof.
  intros s. right. exists [], [], s.
  rewrite app_nil_r. repeat split; reflexivity.
Qed.

Lemma runs_one_job_after {A B} (w : world) (m : M A) (k : A -> M B) :
  bystander m -> (forall a, runs_one_job w (k a)) -> runs_one_job w (m ≫= k).
Proof.
  intros (He & Hj & Ha) Hk s.
  rewrite trace_of_bind, final_state_bind.
  destruct (Hk (m s).1.1 (final_state (m s)))
    as [[Hn Hsame]|(pre & post & s2 & Htr & Hpre & Hpost & Hs2 & Hjf & Hab)].
  - left. split.
    + rewrite forallb_app, He, Hn. reflexivity.
    + rewrite Hsame. apply Ha.
  - right. exists (trace_of (m s) ++ pre), post, s2.
    rewrite Htr, app_assoc. repeat split; try assumption.
    + rewrite forallb_app, He, Hpre. reflexivity.
    + rewrite Hs2. apply Ha.
Qed.

Lemma runs_one_job_before {A B} (w : world) (m : M A) (k : A -> M B) :
  runs_one_job w m -> (forall a, bystander (k a)) -> runs_one_job w (m ≫= k).
Proof.
  intros Hm Hk s.
  rewrite trace_of_bind, final_state_bind.
  destruct (Hk (m s).1.1) as (He & Hj & Ha).
  destruct (Hm s)
    as [[Hn Hsame]|(pre & post & s2 & Htr & Hpre & Hpost & Hs2 & Hjf & Hab)].
  - left. split.
    + rewrite forallb_app, Hn, He. reflexivity.
    + rewrite Ha. exact Hsame.
  - right. exists pre, (post ++ trace_of (k (m s).1.1 (final_state (m s)))), s2.
    rewrite Htr, <- !app_assoc. repeat split; try assumption.
    + rewrite forallb_app, Hpost, He. reflexivity.
    + rewrite Hj. exact Hjf.
    + rewrite Ha. exact Hab.
Qed.

Lemma return_results_bystander (w : world) (n : network) :
  bystander (return_results w n).
Proof.
  unfold return_results.
  apply bystander_bind; [apply send_results_bystander | intros _].
  apply bystander_bind; [apply cleanup_bystander | intros _].
  apply finish_job_bystander.
Qed.

Lemma process_job_runs_one_job (w : world) : runs_one_job w (process_job w).
Proof.
  unfold process_job.
  apply runs_one_job_after; [apply start_engine_bystander | intros _].
  apply runs_one_job_before; [apply run_job_runs_one_job | intros _].
  apply bystander_bind; [apply note_failure_bystander | intros _].
  apply synthesize_error_bystander.
Qed.

Lemma slave_iteration_runs_one_job (w : world) (n : network) :
  runs_one_job w (slave_iteration w n).
Proof.
  unfold slave_iteration.
  apply runs_one_job_after; [apply close_idle_engine_bystander | intros _].
  apply runs_one_job_after; [repeat split; intros s; reflexivity | intros s].
  destruct (zombie_expired w s).
  - apply bystander_runs_no_job. repeat split; intros s'; reflexivity.
  - apply runs_one_job_after; [repeat split; intros s'; reflexivity | intros c].
    destruct (c >? 0).
    + apply runs_one_job_before; [apply process_job_runs_one_job | intros _].
      apply return_results_bystander.
    + apply bystander_runs_no_job. repeat split; intros s'; reflexivity.
Qed.

Lemma slave_tick_runs_one_job (t : tick) :
  runs_one_job (the_world t) (slave_tick t).
Proof.
  unfold slave_tick.
  apply runs_one_job_after; [apply receive_bystander | intros _].
  apply slave_iteration_runs_one_job.
Qed.

(** A step that failed in a trace failed in the part of the trace that
    holds the engine steps. *)
Lemma step_failed_within (w : world) (pre tr post : list event) (k : Z) :
  forallb (fun e => negb (is_engine_step e)) pre = true ->
  forallb (fun e => negb (is_engine_step e)) post = true ->
  step_failed w (pre ++ tr ++ post) k -> step_failed w tr k.
Proof.
  intros Hpre Hpost.
  assert (Hin : forall e, is_engine_step e = true ->
                          e ∈ pre ++ tr ++ post -> e ∈ tr).
  { intros e He Hin. rewrite !elem_of_app in Hin.
    destruct Hin as [Hin|[Hin|Hin]]; [|exact Hin|].
    - apply (forallb_excludes _ _ _ Hpre) in Hin. rewrite He in Hin. discriminate.
    - apply (forallb_excludes _ _ _ Hpost) in Hin. rewrite He in Hin. discriminate. }
  unfold step_failed.
  intros [(-> & [v H] & Hrc)|[(-> & [v H] & Hrc)|[(-> & [v H] & Hrc)|
          [(-> & H & Hrc)|(-> & H & Hrc)]]]];
    apply Hin in H; try reflexivity.
  - left. eauto.
  - right; left. eauto.
  - right; right; left. eauto.
  - right; right; right; left. eauto.
  - right; right; right; right. eauto.
Qed.

Lemma slave_loop_aborted (ticks : list tick) (s : slave) :
  engineAborted s <> 0 -> slave_loop ticks s = (Some (engineAborted s), s, []).
Proof.
  intros Ha. apply Z.eqb_neq in Ha.
  destruct ticks; cbn; run_M; rewrite Ha; reflexivity.
Qed.

Lemma slave_loop_step (t : tick) (ticks : list tick) (s : slave) :
  engineAborted s = 0 ->
  slave_loop (t :: ticks) s
  = ((slave_loop ticks (final_state (slave_tick t s))).1.1,
     final_state (slave_loop ticks (final_state (slave_tick t s))),
     trace_of (slave_tick t s)
     ++ trace_of (slave_loop ticks (final_state (slave_tick t s)))).
Proof.
  intros Ha. apply Z.eqb_eq in Ha.
  cbn [slave_loop]. run_M. rewrite Ha.
  destruct (slave_tick t s) as [[[] s1] t1]. cbn.
  destruct (slave_loop ticks s1) as [[b s2] t2]. reflexivity.
Qed.

(** C2: in one pass of the slave loop that is entered with
    [engineAborted = 0], if step [k] of the five engine steps is tried and
    fails then [jobFailed] ends as [k] and [engineAborted] ends as 1 for
    [k] in 3..5 and as 0 for [k] in 1..2; [engineAborted] is set only
    that way; and once it is set the loop runs no further pass: it
    returns 1, the exit status of the process. *)
Theorem engine_step_failure (t : tick) (ticks : list tick) (s : slave) :
  engineAborted s = 0 ->
  let r := slave_tick t s in
  (forall k, step_failed (the_world t) (trace_of r) k ->
             jobFailed (final_state r) = k
             /\ engineAborted (final_state r) = if 3 <=? k then 1 else 0)
  /\ (engineAborted (final_state r) <> 0 ->
      3 <= jobFailed (final_state r) <= 5
      /\ slave_loop (t :: ticks) s = (Some 1, final_state r, trace_of r)).
Proof.
  intros Ha. cbv zeta.
  generalize (slave_loop_step t ticks s Ha).
  generalize (slave_tick_runs_one_job t s).
  generalize (slave_tick t s). intros r Hshape Hstep.
  assert (Hloop : engineAborted (final_state r) <> 0 ->
                  slave_loop (t :: ticks) s
                  = (Some (engineAborted (final_state r)), final_state r,
                     trace_of r)).
  { intros Hab. rewrite Hstep.
    rewrite (slave_loop_aborted ticks _ Hab), app_nil_r. reflexivity. }
  destruct Hshape
    as [[Hn Hsame]|(pre & post & s2 & Htr & Hpre & Hpost & Hs2 & Hjf & Hab)].
  - split.
    + intros k Hk. exfalso.
      assert (Hno : forall e, is_engine_step e = true -> e ∈ trace_of r -> False).
      { intros e He Hin. apply (forallb_excludes _ _ _ Hn) in Hin.
        rewrite He in Hin. discriminate. }
      destruct Hk as [(_ & [v H] & _)|[(_ & [v H] & _)|[(_ & [v H] & _)|
                     [(_ & H & _)|(_ & H & _)]]]];
        apply Hno in H; try exact H; reflexivity.
    + intros Hne. rewrite Hsame, Ha in Hne. contradiction.
  - rewrite Ha in Hs2.
    destruct (run_job_step_failed (the_world t) s2 Hs2) as [Hflags Hset].
    cbv zeta in Hflags, Hset.
    split.
    + intros k Hk. rewrite Htr in Hk.
      apply (step_failed_within _ _ _ _ _ Hpre Hpost) in Hk.
      rewrite Hjf, Hab. apply Hflags, Hk.
    + intros Hne. specialize (Hloop Hne).
      rewrite Hab in Hne. destruct (Hset Hne) as [H1 Hk].
      rewrite Hjf. split; [exact Hk|].
      rewrite Hloop, Hab, H1. reflexivity.
Qed.

(** ** A result-send that runs to its end *)


(** ** Returning the results: what changes and what does not *)

Lemma with_send_vars_twice (x y s : slave) :
  with_send_vars x (with_send_vars y s) = with_send_vars x s.
Proof. destruct s. reflexivity. Qed.

Lemma only_send_vars_bind {A B} (m : M A) (k : A -> M B) :
  only_send_vars m -> (forall a, only_send_vars (k a)) ->
  only_send_vars (m ≫= k).
Proof.
  intros Hm Hk s. rewrite final_state_bind.
  generalize (Hk (m s).1.1 (final_state (m s))).
  generalize (Hm s).
  generalize (final_state (m s)) as s1. intros s1 H2.
  generalize (final_state (k (m s).1.1 s1)) as s2. intros s2 H1.
  transitivity (with_send_vars s2 s1); [exact H1|].
  rewrite H2. apply with_send_vars_twice.
Qed.


Lemma cleanup_only_send_vars : only_send_vars cleanup.
Proof.
  intros s. destruct s. unfold cleanup. run_M. cbn. crunch; reflexivity.
Qed.

Lemma cleanup_silent :
  emits (fun e => negb (is_engine_call e || is_announce e || is_socket_io e))
        cleanup.
Proof.
  intros s. destruct s. unfold cleanup. run_M. cbn. crunch; reflexivity.
Qed.

Lemma finish_job_zombie (w : world) (s : slave) :
  engineFailed s <> 0 ->
  finish_job w s = (tt, set_joblist [] s, [ClearJoblist]).
Proof.
  intros H. apply Z.eqb_neq in H.
  unfold finish_job. run_M. cbn. rewrite H. reflexivity.
Qed.

Lemma finish_job_idle (w : world) (s : slave) :
  engineFailed s = 0 ->
  finish_job w s
  = (tt,
     set_matlabFinished (to_int (time_finished w))
       (set_host (set_status_current STATUS_IDLE current_zero (host s))
          (set_joblist [] s)),
     [ClearJoblist; Lock mutexhost; Unlock mutexhost;
      Announce (set_status_current STATUS_IDLE current_zero (host s))]).
Proof.
  intros H. apply Z.eqb_eq in H.
  unfold finish_job. run_M. cbn. rewrite H. reflexivity.
Qed.


Lemma only_send_vars_keeps {A T} (f : slave -> T) (m : M A) :
  (forall x s, f (with_send_vars x s) = f s) -> only_send_vars m -> keeps f m.
Proof. intros Hf Hm s. rewrite Hm. apply Hf. Qed.

Lemma count_app (p : event -> bool) (t1 t2 : list event) :
  count p (t1 ++ t2) = (count p t1 + count p t2)%nat.
Proof. unfold count. rewrite List.filter_app, length_app. reflexivity. Qed.

Lemma count_none (p q : event -> bool) (tr : list event) :
  forallb q tr = true -> (forall e, q e = true -> p e = false) ->
  count p tr = 0%nat.
Proof.
  intros H Hq. unfold count. induction tr as [|e tr IH]; [reflexivity|].
  cbn in *. apply andb_true_iff in H as [He Htr].
  rewrite (Hq e He). apply IH, Htr.
Qed.

(** Returning the results of a job for which the engine did not start:
    the host descriptor stays as it is and nothing is announced. *)
Lemma return_results_zombie (w : world) (n : network) (s : slave) :
  engineFailed s <> 0 ->
  let r := return_results w n s in
  host (final_state r) = host s
  /\ engineFailed (final_state r) = engineFailed s
  /\ matlabRunning (final_state r) = matlabRunning s
  /\ joblist (final_state r) = []
  /\ count is_announce (trace_of r) = 0%nat.
Proof.
  intros Hz r. subst r. unfold return_results.
  rewrite !final_state_bind, !trace_of_bind, !count_app.
  pose proof (send_results_spec w n s) as (Hs & _ & Hq & _).
  set (s1 := final_state (send_results w n s)) in *.
  pose proof (cleanup_only_send_vars s1) as Hc.
  pose proof (cleanup_silent s1) as Hcq.
  set (s2 := final_state (cleanup s1)) in *.
  assert (Hz2 : engineFailed s2 <> 0) by (rewrite Hc, Hs; exact Hz).
  rewrite (finish_job_zombie w s2 Hz2).
  cbn [final_state trace_of fst snd].
  rewrite (count_none is_announce _ _ Hq), (count_none is_announce _ _ Hcq).
  - repeat split; cbn; rewrite Hc, Hs; reflexivity.
  - intros e He. cbv beta in He.
    apply negb_true_iff, orb_false_iff in He as [He _].
    apply orb_false_iff in He as [_ He]. exact He.
  - intros e He. cbv beta in He.
    apply negb_true_iff, orb_false_iff in He as [_ He]. exact He.
Qed.

(** A pass that finds a job and is not the end of a zombie period. *)
Lemma slave_iteration_processes (w : world) (n : network) (s : slave) :
  zombie_expired w s = false -> joblist s <> [] ->
  slave_iteration w n s
  = (close_idle_engine w;; emit Jobcount;; process_job w;; return_results w n
     : M unit) s.
Proof.
  intros Hz Hq. unfold slave_iteration. run_M.
  assert (Hsame : engineFailed (final_state (close_idle_engine w s)) = engineFailed s
                  /\ joblist (final_state (close_idle_engine w s)) = joblist s).
  { destruct s. unfold close_idle_engine. run_M. cbn. crunch; split; reflexivity. }
  unfold final_state in Hsame.
  destruct (close_idle_engine w s) as [[[] s1] t1]. cbn in Hsame.
  destruct Hsame as [Hf Hj].
  unfold zombie_expired in *. rewrite Hf, Hz, Hj.
  destruct (joblist s) as [|job rest]; [contradiction|].
  cbn [length]. rewrite Nat2Z.inj_succ.
  destruct (Z.gtb_spec (Z.succ (Z.of_nat (length rest))) 0); [|lia].
  destruct (process_job w s1) as [[[] s2] t2].
  destruct (return_results w n s2) as [[[] s3] t3]. reflexivity.
Qed.


(** ** The zombie period *)








(** ** The job queue *)

Lemma close_idle_engine_keeps_joblist (w : world) : keeps joblist (close_idle_engine w).
Proof.
  intros s. destruct s. unfold close_idle_engine. run_M. cbn. crunch; reflexivity.
Qed.

Lemma start_engine_keeps_joblist (w : world) : keeps joblist (start_engine w).
Proof.
  intros s. destruct s. unfold start_engine. run_M. cbn. crunch; reflexivity.
Qed.

(** The [argin] that [run_job] copies to the engine is the one of the first
    job of the queue. *)
Lemma run_job_argin (w : world) (s : slave) (job : joblist_t)
    (rest : list joblist_t) (v : mxArray) :
  joblist s = job :: rest ->
  EngPutVariable "argin" v ∈ trace_of (run_job w s) ->
  v = mxDeserialize w (job_arg job) (d_argsize (job_job job)).
Proof.
  intros Hq. destruct s. cbn in Hq. subst.
  unfold run_job, take_job, execute_job. run_M. cbn.
  crunch; intros Hin; in_trace Hin.
Qed.

Lemma return_results_clears (w : world) (n : network) (s : slave) :
  joblist (final_state (return_results w n s)) = [].
Proof.
  unfold return_results. rewrite !final_state_bind.
  generalize (final_state (cleanup (final_state (send_results w n s)))).
  intros s2. destruct s2. unfold finish_job. run_M. cbn. crunch; reflexivity.
Qed.

(** C4, as amended: a pass that finds a job (and is not the end of a
    zombie period) ends with an empty queue: the jobs queued behind the
    first one are dropped with it; and the only [argin] that may reach the
    engine in that pass is the one of the first job. *)
Theorem processed_queue_cleared (w : world) (n : network) (s : slave)
    (job : joblist_t) (rest : list joblist_t) :
  joblist s = job :: rest ->
  zombie_expired w s = false ->
  let r := slave_iteration w n s in
  joblist (final_state r) = []
  /\ forall v, EngPutVariable "argin" v ∈ trace_of r ->
               v = mxDeserialize w (job_arg job) (d_argsize (job_job job)).
Proof.
  intros Hq Hz r. subst r.
  rewrite slave_iteration_processes by (try assumption; rewrite Hq; discriminate).
  split.
  - rewrite !final_state_bind. apply return_results_clears.
  - intros v Hin.
    rewrite !trace_of_bind, ?final_state_bind in Hin.
    unfold process_job in Hin.
    rewrite !trace_of_bind, ?final_state_bind in Hin.
    set (s1 := final_state (close_idle_engine w s)) in *.
    set (s0 := final_state (emit Jobcount s1)) in *.
    set (s2 := final_state (start_engine w s0)) in *.
    assert (Hq2 : joblist s2 = job :: rest).
    { unfold s2. rewrite (start_engine_keeps_joblist w s0).
      unfold s0, s1. cbn [emit final_state fst snd].
      rewrite <- Hq. apply (close_idle_engine_keeps_joblist w s). }
    assert (Hno : forall (m : M unit) s', bystander m ->
                    EngPutVariable "argin" v ∈ trace_of (m s') -> False).
    { intros m s' (He & _) H. apply (forallb_excludes _ _ _ (He s')) in H.
      discriminate. }
    rewrite !elem_of_app in Hin.
    destruct Hin as [H|[H|[[H|[H|[H|H]]]|H]]].
    + exact (False_ind _ (Hno _ _ (close_idle_engine_bystander w) H)).
    + cbn in H. in_trace H.
    + exact (False_ind _ (Hno _ _ (start_engine_bystander w) H)).
    + exact (run_job_argin w s2 job rest v Hq2 H).
    + exact (False_ind _ (Hno _ _ note_failure_bystander H)).
    + exact (False_ind _ (Hno _ _ synthesize_error_bystander H)).
    + exact (False_ind _ (Hno _ _ (return_results_bystander w n) H)).
Qed.

(** C4, as stated, fails: with two jobs queued, one pass executes the
    first job only and leaves the queue empty, not holding the second job;
    the next pass finds no job and sleeps. *)
Lemma second_job_dropped :
  let r := slave_iteration ex_world ex_network (ex_slave [ex_job 7 10; ex_job 8 10]) in
  joblist (final_state r) = []
  /\ joblist (final_state r) <> [ex_job 8 10]
  /\ count is_engine_step (trace_of r) = 5%nat
  /\ trace_of (slave_iteration ex_world ex_network (final_state r))
     = [Jobcount; ThreadSleep].
Proof.
  cbv zeta. split; [vm_compute; reflexivity|].
  split; [vm_compute; discriminate|].
  split; vm_compute; reflexivity.
Qed.

(** ** The result-send protocol *)

(** What the two checks say of a trace, event by event. *)
Lemma after_bad_handshake_sound (stops : event -> bool) (tr : list event) :
  after_bad_handshake stops tr = true ->
  forall pre fd len handshake post,
    tr = pre ++ BufRead fd len handshake :: post ->
    len <> sizeof_int \/ handshake = 0 ->
    forall e, e ∈ post -> stops e = false.
Proof.
  intros H pre. revert tr H.
  induction pre as [|x pre IH]; intros tr H fd len hs post -> Hbad e He.
  - cbn in H. apply andb_true_iff in H as [H _].
    assert (Hb : bad_handshake len hs = true).
    { unfold bad_handshake.
      destruct Hbad as [Hl| ->]; [|apply orb_true_r].
      apply Z.eqb_neq in Hl. rewrite Hl. reflexivity. }
    rewrite Hb in H.
    apply (forallb_excludes _ _ _ H) in He. apply negb_true_iff in He. exact He.
  - assert (H' : after_bad_handshake stops (pre ++ BufRead fd len hs :: post) = true).
    { destruct x; cbn in H; try exact H.
      apply andb_true_iff in H as [_ H]. exact H. }
    exact (IH _ H' fd len hs post eq_refl Hbad e He).
Qed.

Lemma after_short_write_sound (w : world) (stops : event -> bool)
    (tr : list event) :
  after_short_write w stops tr = true ->
  forall pre fd f k post,
    tr = pre ++ BufWrite fd f k :: post ->
    k <> segment_size w f ->
    forall e, e ∈ post -> stops e = false.
Proof.
  intros H pre. revert tr H.
  induction pre as [|x pre IH]; intros tr H fd f k post -> Hshort e He.
  - cbn in H. apply andb_true_iff in H as [H _].
    apply Z.eqb_neq in Hshort. rewrite Hshort in H. cbn in H.
    apply (forallb_excludes _ _ _ H) in He. apply negb_true_iff in He. exact He.
  - assert (H' : after_short_write w stops (pre ++ BufWrite fd f k :: post) = true).
    { destruct x; cbn in H; try exact H.
      apply andb_true_iff in H as [_ H]. exact H. }
    exact (IH _ H' fd f k post eq_refl Hshort e He).
Qed.

(** What follows a write, and what the reads depend on. *)
Lemma write_then_read_sound (tr : list event) :
  write_then_read tr = true ->
  forall pre fd f k post,
    tr = pre ++ BufWrite fd f k :: post ->
    exists fd' len handshake, BufRead fd' len handshake ∈ post.
Proof.
  intros H pre. revert tr H.
  induction pre as [|x pre IH]; intros tr H fd f k post ->.
  - cbn in H. apply andb_true_iff in H as [H _].
    apply existsb_exists in H as (e & He & Hr).
    destruct e; try discriminate Hr.
    eexists _, _, _. apply list_elem_of_In. exact He.
  - assert (H' : write_then_read (pre ++ BufWrite fd f k :: post) = true).
    { destruct x; cbn in H; try exact H.
      apply andb_true_iff in H as [_ H]. exact H. }
    exact (IH _ H' fd f k post eq_refl).
Qed.

Lemma send_results_write_then_read (w : world) (n : network) (s : slave) :
  write_then_read (trace_of (send_results w n s)) = true.
Proof.
  destruct s.
  unfold send_results, send_message, read_handshake, write_segment.
  run_M. cbn. crunch; reflexivity.
Qed.

Lemma send_results_reads (w : world) (n : network) (s : slave) (bw : nat -> Z) :
  List.filter is_read (trace_of (send_results w (set_bufwrite bw n) s))
  = List.filter is_read (trace_of (send_results w n s)).
Proof.
  destruct s.
  unfold send_results, send_message, read_handshake, write_segment.
  run_M. cbn. crunch; reflexivity.
Qed.

(** C5, as amended: in the result-send protocol, after a handshake that
    is not read in full or that is 0, nothing more is read from or written
    to the socket; after a segment that is written short, no further
    segment is written, but the handshakes that follow are still read:
    every write, short or not, is followed by the read of a handshake,
    and the handshakes that the protocol reads are the same whatever the
    writes return (with every one of them short as with every one of them
    in full). *)
Theorem send_results_aborts (w : world) (n : network) (s : slave)
    (pre post : list event) (e : event) :
  trace_of (send_results w n s) = pre ++ e :: post ->
  (forall fd len handshake,
      e = BufRead fd len handshake ->
      len <> sizeof_int \/ handshake = 0 ->
      forall e', e' ∈ post -> is_socket_io e' = false)
  /\ (forall fd f k,
        e = BufWrite fd f k ->
        k <> segment_size w f ->
        forall e', e' ∈ post -> is_write e' = false)
  /\ (forall fd f k,
        e = BufWrite fd f k ->
        exists fd' len handshake, BufRead fd' len handshake ∈ post)
  /\ (forall bw,
        List.filter is_read (trace_of (send_results w (set_bufwrite bw n) s))
        = List.filter is_read (trace_of (send_results w n s))).
Proof.
  intros Htr.
  destruct (send_results_spec w n s) as (_ & _ & _ & Hh & Hw).
  split; [|split; [|split]].
  - intros fd len hs -> Hbad.
    exact (after_bad_handshake_sound _ _ Hh pre fd len hs post Htr Hbad).
  - intros fd f k -> Hshort.
    exact (after_short_write_sound _ _ _ Hw pre fd f k post Htr Hshort).
  - intros fd f k ->.
    exact (write_then_read_sound _ (send_results_write_then_read w n s)
             pre fd f k post Htr).
  - intros bw. apply send_results_reads.
Qed.

(** The protocol of the example slave when the host descriptor is written
    short. *)
Lemma short_write_trace :
  trace_of (send_results ex_world ex_network_short_write
              (final_state (process_job ex_world (ex_slave [ex_job 7 10]))))
  = [Lock mutexpeerlist; Lock mutexhost; Unlock mutexhost;
     OpenTcp "10.0.0.1" 1701; Unlock mutexpeerlist; BufRead 5 4 1;
     Lock mutexhost]
    ++ BufWrite 5 (FHost (host (final_state (process_job ex_world
                                               (ex_slave [ex_job 7 10]))))) 60
    :: [Unlock mutexhost; BufRead 5 4 1; BufRead 5 4 1; BufRead 5 4 1;
        BufRead 5 4 1].
Proof. vm_compute. reflexivity. Qed.

Lemma send_results_aborts_witness :
  let s := final_state (process_job ex_world (ex_slave [ex_job 7 10])) in
  let e := BufWrite 5 (FHost (host s)) 60 in
  let post := [Unlock mutexhost; BufRead 5 4 1; BufRead 5 4 1; BufRead 5 4 1;
               BufRead 5 4 1] in
  (forall fd len handshake,
      e = BufRead fd len handshake ->
      len <> sizeof_int \/ handshake = 0 ->
      forall e', e' ∈ post -> is_socket_io e' = false)
  /\ (forall fd f k,
        e = BufWrite fd f k ->
        k <> segment_size ex_world f ->
        forall e', e' ∈ post -> is_write e' = false)
  /\ (forall fd f k,
        e = BufWrite fd f k ->
        exists fd' len handshake, BufRead fd' len handshake ∈ post)
  /\ (forall bw,
        List.filter is_read
          (trace_of (send_results ex_world
                       (set_bufwrite bw ex_network_short_write) s))
        = List.filter is_read
            (trace_of (send_results ex_world ex_network_short_write s))).
Proof.
  cbv zeta.
  exact (send_results_aborts ex_world ex_network_short_write _ _ _ _
           short_write_trace).
Defined.

(** C5, as stated, fails: after the host descriptor is written short (60
    bytes of 100), the protocol goes on to read four more handshakes; only
    the writes stop. *)
Lemma short_write_keeps_reading :
  let tr := trace_of (slave_iteration ex_world ex_network_short_write
                        (ex_slave [ex_job 7 10])) in
  after_short_write ex_world is_socket_io tr = false
  /\ map (fun e => match e with
                   | BufRead _ len handshake => (0, len, handshake)
                   | BufWrite _ _ k => (1, k, 0)
                   | _ => (2, 0, 0)
                   end)
         (List.filter is_socket_io tr)
     = [(0, 4, 1); (1, 60, 0); (0, 4, 1); (0, 4, 1); (0, 4, 1); (0, 4, 1)]
  /\ sizeof_hostdef_t ex_world = 100.
Proof. cbv zeta. repeat split; vm_compute; reflexivity. Qed.

(** ** The cleanup label *)

(** C6, the failing input: the first job of a slave, submitted by a
    master that is no longer in the peer table.  [cleanup] is reached by
    the first [goto], before [server], [arg] and [opt] are assigned, and
    tests all three. *)
Theorem cleanup_reads_unassigned :
  let r := slave_iteration ex_world ex_network_no_peer (ex_slave [ex_job 7 10]) in
  List.filter is_indeterminate (trace_of r)
  = [Indeterminate "server"; Indeterminate "arg"; Indeterminate "opt"]
  /\ server (final_state r) = None
  /\ arg (final_state r) = None
  /\ opt (final_state r) = None
  /\ forallb (fun e => negb (is_socket_io e)) (trace_of r) = true.
Proof. cbv zeta. repeat split; vm_compute; reflexivity. Qed.

(** ** The supervisor *)

Lemma forked_ids_app (t1 t2 : list event) :
  forked_ids (t1 ++ t2) = forked_ids t1 ++ forked_ids t2.
Proof.
  induction t1 as [|e t1 IH]; [reflexivity|].
  destruct e; cbn; rewrite ?IH; reflexivity.
Qed.

Lemma check_child_no_fork (wt : wait_t) (pid : Z) :
  forked_ids (check_child wt pid).2 = [].
Proof. unfold check_child. repeat case_match; reflexivity. Qed.

(** One pass either forks one child, with the next host id, or forks none
    and leaves the host id as it is. *)
Lemma supervise_step_ids (t : sup_tick) (s : supervisor) :
  let r := supervise_step t s in
  (forked_ids r.2 = []
   /\ exists s', r.1 = Monitoring s' /\ sup_hostid s' = sup_hostid s)
  \/ (forked_ids r.2 = [to_uint (sup_hostid s + 1)]
      /\ match r.1 with
         | Monitoring s' | Child s' => sup_hostid s' = to_uint (sup_hostid s + 1)
         | ForkFailed => True
         end).
Proof.
  unfold supervise_step.
  pose proof (check_child_no_fork (the_wait t) (default 0 (sup_pids s !! sup_cconf s))) as Hc.
  destruct (check_child _ _) as [pid tr]. cbn in Hc.
  destruct (pid =? 0).
  - right. destruct (the_fork t >=? 0); [destruct (the_fork t =? 0)|];
      cbn; rewrite ?forked_ids_app, Hc; cbn; split; reflexivity.
  - left. cbn. rewrite forked_ids_app, Hc. split; [reflexivity|].
    eexists. split; reflexivity.
Qed.

Lemma supervise_ids (ticks : list sup_tick) (s : supervisor) :
  0 <= sup_hostid s ->
  sup_hostid s + Z.of_nat (length ticks) < 2 ^ 32 ->
  let r := supervise ticks s in
  forked_ids r.2
  = map (fun k => sup_hostid s + Z.of_nat k) (seq 1 (length (forked_ids r.2)))
  /\ (length (forked_ids r.2) <= length ticks)%nat
  /\ match r.1 with
     | Monitoring s' | Child s' =>
         sup_hostid s' = sup_hostid s + Z.of_nat (length (forked_ids r.2))
     | ForkFailed => True
     end.
Proof.
  revert s. induction ticks as [|t ticks IH]; intros s H0 Hmax.
  - cbn. split; [reflexivity|split; lia].
  - cbn [supervise length] in *.
    pose proof (supervise_step_ids t s) as Hstep. cbv zeta in Hstep.
    destruct (supervise_step t s) as [out tr]. cbn [fst snd] in Hstep.
    assert (Hw : to_uint (sup_hostid s + 1) = sup_hostid s + 1)
      by (apply wrap_small; lia).
    destruct Hstep as [(Hids & s' & -> & Hid)|(Hids & Hout)].
    + specialize (IH s'). rewrite Hid in IH.
      specialize (IH H0 ltac:(lia)). cbv zeta in IH.
      destruct (supervise ticks s') as [r tr']. cbn [fst snd] in *.
      rewrite forked_ids_app, Hids. cbn [app].
      destruct IH as (IH1 & IH2 & IH3). split; [exact IH1|split; [lia|exact IH3]].
    + rewrite Hw in *.
      destruct out as [s'| s'|].
      * specialize (IH s'). rewrite Hout in IH.
        specialize (IH ltac:(lia) ltac:(lia)). cbv zeta in IH.
        destruct (supervise ticks s') as [r tr']. cbn [fst snd] in *.
        rewrite forked_ids_app, Hids. cbn [app length seq map].
        destruct IH as (IH1 & IH2 & IH3). split; [|split].
        -- f_equal; try lia. rewrite IH1 at 1.
           rewrite <- (seq_shift (length (forked_ids tr')) 1), map_map.
           apply map_ext. intros k. lia.
        -- lia.
        -- destruct r; try exact I; rewrite IH3; lia.
      * cbn [fst snd]. rewrite Hids. cbn.
        split; [f_equal; try lia|split; lia].
      * cbn [fst snd]. rewrite Hids. cbn.
        split; [f_equal; try lia|split; [lia|exact I]].
Qed.

(** A pass at a configuration without a child, or whose child exited or
    was signaled: the host id is incremented between the lock and the
    unlock of [mutexhost], and then the child is forked. *)
Lemma supervise_step_respawn (t : sup_tick) (s : supervisor) (pid : Z) :
  sup_pids s !! sup_cconf s = Some pid ->
  pid = 0
  \/ (waitpid (the_wait t) > 0
      /\ (WIFEXITED (the_wait t) = true \/ WIFSIGNALED (the_wait t) = true)) ->
  exists before after,
    (supervise_step t s).2
    = before ++ [Lock mutexhost; Unlock mutexhost;
                 Fork (to_uint (sup_hostid s + 1))] ++ after
    /\ forked_ids before = [] /\ forked_ids after = [].
Proof.
  intros Hpid Hwhy. unfold supervise_step, check_child. rewrite Hpid. cbn.
  assert (Hcase :
    (if negb (pid =? 0)
     then if waitpid (the_wait t) >? 0
          then ((if WIFSIGNALED (the_wait t) then 0
                 else if WIFEXITED (the_wait t) then 0 else pid), [Waitpid pid])
          else (pid, [Waitpid pid])
     else (pid, []))
    = (0, if pid =? 0 then [] else [Waitpid pid])).
  { destruct Hwhy as [-> | (Hw & Hwhy)]; [reflexivity|].
    destruct (Z.eqb_spec pid 0) as [-> |]; [reflexivity|]. cbn.
    destruct (Z.gtb_spec (waitpid (the_wait t)) 0); [|lia].
    destruct Hwhy as [-> | ->]; [destruct (WIFSIGNALED _)|]; reflexivity. }
  rewrite Hcase. cbn.
  exists (if pid =? 0 then [] else [Waitpid pid]).
  destruct (the_fork t >=? 0); [destruct (the_fork t =? 0)|]; cbn.
  - exists []. repeat split; destruct (pid =? 0); reflexivity.
  - exists [ThreadSleep]. repeat split; destruct (pid =? 0); reflexivity.
  - exists []. repeat split; destruct (pid =? 0); reflexivity.
Qed.

(** A pass at a child that neither exited nor was signaled (it runs, or
    it is stopped): nothing but the poll and the sleep. *)
Lemma supervise_step_stopped (t : sup_tick) (s : supervisor) (pid : Z) :
  sup_pids s !! sup_cconf s = Some pid ->
  pid <> 0 ->
  WIFEXITED (the_wait t) = false -> WIFSIGNALED (the_wait t) = false ->
  (supervise_step t s).2 = [Waitpid pid; ThreadSleep]
  /\ exists s', (supervise_step t s).1 = Monitoring s'
                /\ sup_hostid s' = sup_hostid s /\ sup_pids s' = sup_pids s.
Proof.
  intros Hpid Hne He Hs. unfold supervise_step, check_child.
  rewrite Hpid, He, Hs. cbn.
  apply Z.eqb_neq in Hne. rewrite Hne. cbn.
  destruct (waitpid (the_wait t) >? 0); rewrite Hne; cbn;
    (split; [reflexivity|]); eexists; (split; [reflexivity|]);
    (split; [reflexivity|]); cbn; apply list_insert_id; exact Hpid.
Qed.

(** C8: as long as the 32-bit host id does not wrap, the host ids that
    one supervisor gives to its children are consecutive, so strictly
    increasing, starting one above its own; every fork (the first one of a
    configuration, and the one after its child exited or was signaled)
    comes right after the increment of the host id under [mutexhost]; a
    child that is stopped is polled and left alone: no increment, no
    fork. *)
Theorem supervisor_host_ids (ticks : list sup_tick) (s : supervisor) :
  0 <= sup_hostid s ->
  sup_hostid s + Z.of_nat (length ticks) < 2 ^ 32 ->
  let r := supervise ticks s in
  let ids := forked_ids r.2 in
  ids = map (fun k => sup_hostid s + Z.of_nat k) (seq 1 (length ids))
  /\ (forall t s0 pid,
        sup_pids s0 !! sup_cconf s0 = Some pid ->
        pid = 0
        \/ (waitpid (the_wait t) > 0
            /\ (WIFEXITED (the_wait t) = true \/ WIFSIGNALED (the_wait t) = true)) ->
        exists before after,
          (supervise_step t s0).2
          = before ++ [Lock mutexhost; Unlock mutexhost;
                       Fork (to_uint (sup_hostid s0 + 1))] ++ after
          /\ forked_ids before = [] /\ forked_ids after = [])
  /\ (forall t s0 pid,
        sup_pids s0 !! sup_cconf s0 = Some pid ->
        pid <> 0 ->
        WIFEXITED (the_wait t) = false -> WIFSIGNALED (the_wait t) = false ->
        (supervise_step t s0).2 = [Waitpid pid; ThreadSleep]
        /\ exists s', (supervise_step t s0).1 = Monitoring s'
                      /\ sup_hostid s' = sup_hostid s0
                      /\ sup_pids s' = sup_pids s0).
Proof.
  intros H0 Hmax r ids. split; [|split].
  - apply (supervise_ids ticks s H0 Hmax).
  - apply supervise_step_respawn.
  - apply supervise_step_stopped.
Qed.

(** ** The command line *)

(** C9, the failing input: [peerslave --help].  With exactly one argument
    the argument is taken for a configuration file and [getopt_long] is
    never called, so [help_flag] stays 0: whatever [parsefile] finds, the
    usage message is not printed. *)
Theorem help_alone_is_a_config_file
    (parsefile : string -> Z * list config_t)
    (getopt_long : list string -> list getopt_t) :
  startup parsefile getopt_long ["peerslave"; "--help"] <> Help
  /\ (to_uint (parsefile "--help").1 < 1 ->
      startup parsefile getopt_long ["peerslave"; "--help"]
      = Panic "cannot read the configuration file").
Proof.
  unfold startup. cbn.
  destruct (parsefile "--help") as [numpeer pconf]. cbn.
  destruct (Z.ltb_spec (to_uint numpeer) 1); split; try discriminate;
    try reflexivity; lia.
Qed.

(** ** A master without a socket *)

Lemma cleanup_assigned (s : slave) (fd : Z) (a b : option (list byte))
    (d : option jobdef_t) :
  server s = Some fd -> arg s = Some a -> opt s = Some b -> def s = Some d ->
  final_state (cleanup s)
  = set_server (Some (if fd >? 0 then 0 else fd))
      (set_arg (Some None) (set_opt (Some None) (set_def (Some None) s)))
  /\ List.filter is_indeterminate (trace_of (cleanup s)) = [].
Proof.
  intros Hs Ha Hb Hd. destruct s. cbn in Hs, Ha, Hb, Hd. subst.
  unfold cleanup. run_M. cbn.
  destruct (fd >? 0), a, b, d; split; reflexivity.
Qed.




(** ** The theorems at the example inputs *)

Lemma engine_step_failure_witness :
  engineAborted (ex_slave []) = 0
  /\ step_failed ex_world_eval_fails
       (trace_of (slave_tick ex_tick_eval_fails (ex_slave []))) 3
  /\ jobFailed (final_state (slave_tick ex_tick_eval_fails (ex_slave []))) = 3
  /\ engineAborted (final_state (slave_tick ex_tick_eval_fails (ex_slave []))) = 1
  /\ (slave_loop [ex_tick_eval_fails; ex_tick_eval_fails] (ex_slave [])).1.1 = Some 1.
Proof.
  assert (Hk : step_failed ex_world_eval_fails
                 (trace_of (slave_tick ex_tick_eval_fails (ex_slave []))) 3).
  { right; right; left. split; [reflexivity|]. split; [|discriminate].
    exists "[argout, options] = peerexec(argin, options);".
    apply list_elem_of_In. vm_compute.
    repeat (first [left; reflexivity | right]). }
  destruct (engine_step_failure ex_tick_eval_fails [ex_tick_eval_fails]
              (ex_slave []) eq_refl) as [Hflags Hloop].
  destruct (Hflags 3 Hk) as [Hj Ha].
  split; [reflexivity|]. split; [exact Hk|]. split; [exact Hj|]. split; [exact Ha|].
  assert (Hne : engineAborted (final_state (slave_tick ex_tick_eval_fails (ex_slave []))) <> 0)
    by (rewrite Ha; discriminate).
  destruct (Hloop Hne) as [_ ->]. reflexivity.
Defined.


Lemma processed_queue_cleared_witness :
  joblist (final_state (slave_iteration ex_world ex_network
                          (ex_slave [ex_job 7 10; ex_job 8 10]))) = [].
Proof.
  refine (proj1 (processed_queue_cleared ex_world ex_network
                   (ex_slave [ex_job 7 10; ex_job 8 10]) (ex_job 7 10)
                   [ex_job 8 10] _ _)); reflexivity.
Defined.

Lemma supervisor_host_ids_witness :
  forked_ids (supervise [ex_sup_tick 101; ex_sup_tick 102; ex_sup_tick 103]
                ex_supervisor).2
  = [8; 9].
Proof.
  rewrite (proj1 (supervisor_host_ids
                    [ex_sup_tick 101; ex_sup_tick 102; ex_sup_tick 103]
                    ex_supervisor ltac:(simpl; lia) ltac:(simpl; lia))).
  reflexivity.
Defined.


(** * Further properties of the slave loop *)

(** ** Passes without a job *)

(** A pass that finds no job, is not the end of a zombie period and has
    no idle engine to close changes nothing: it polls the queue and
    sleeps, and announces nothing. *)
Theorem idle_poll (w : world) (n : network) (s : slave) :
  joblist s = [] ->
  zombie_expired w s = false ->
  matlabRunning s = 0 \/ time_idle w - matlabFinished s <= enginetimeout s ->
  slave_iteration w n s = (tt, s, [Jobcount; ThreadSleep]).
Proof.
  intros Hq Hz Hidle.
  assert (Hclose : close_idle_engine w s = (tt, s, [])).
  { unfold close_idle_engine. run_M.
    destruct Hidle as [-> | Hle]; [reflexivity|].
    destruct (Z.gtb_spec (time_idle w - matlabFinished s) (enginetimeout s));
      [lia|]. rewrite andb_false_r. reflexivity. }
  unfold slave_iteration. run_M. rewrite Hclose. cbn. rewrite Hz, Hq. reflexivity.
Qed.

Lemma idle_poll_witness :
  slave_iteration ex_world ex_network (ex_slave [])
  = (tt, ex_slave [], [Jobcount; ThreadSleep]).
Proof.
  apply idle_poll; [reflexivity | reflexivity | left; reflexivity].
Defined.

(** An engine that has been idle for longer than the timeout is closed,
    and is taken as stopped whatever [engClose] returns; the host
    descriptor is not touched and nothing is announced. *)
Theorem idle_engine_closed (w : world) (n : network) (s : slave) :
  matlabRunning s <> 0 ->
  time_idle w - matlabFinished s > enginetimeout s ->
  joblist s = [] ->
  zombie_expired w s = false ->
  slave_iteration w n s
  = (tt, set_matlabRunning 0 s, [EngClose; Jobcount; ThreadSleep]).
Proof.
  intros Hrun Hidle Hq Hz.
  assert (Hclose : close_idle_engine w s = (tt, set_matlabRunning 0 s, [EngClose])).
  { unfold close_idle_engine. run_M.
    apply Z.eqb_neq in Hrun. rewrite Hrun.
    destruct (Z.gtb_spec (time_idle w - matlabFinished s) (enginetimeout s));
      [|lia]. cbn. destruct (engClose w =? 0); reflexivity. }
  unfold slave_iteration. run_M. rewrite Hclose. cbn.
  unfold zombie_expired in *. cbn. rewrite Hz. cbn. rewrite Hq. reflexivity.
Qed.

Lemma idle_engine_closed_witness :
  slave_iteration ex_world ex_network (set_matlabRunning 1 (ex_slave []))
  = (tt, set_matlabRunning 0 (set_matlabRunning 1 (ex_slave [])),
     [EngClose; Jobcount; ThreadSleep]).
Proof.
  apply idle_engine_closed; try reflexivity; simpl; unfold ENGINETIMEOUT; lia.
Defined.

(** ** The peer table *)

(** [find_peer] gives the first entry of the table with the given id:
    the entries before it have another id. *)
Theorem find_peer_first (peers : list peerlist_t) (peerid : Z) (peer : peerlist_t) :
  find_peer peers peerid = Some peer <->
  exists before after,
    peers = before ++ peer :: after
    /\ h_id (peer_host peer) = peerid
    /\ Forall (fun p => h_id (peer_host p) <> peerid) before.
Proof.
  split.
  - induction peers as [|p peers IH]; [discriminate|]. cbn.
    destruct (Z.eqb_spec (h_id (peer_host p)) peerid) as [E|E].
    + intros [= ->]. exists [], peers. repeat split; [exact E|constructor].
    + intros H. destruct (IH H) as (before & after & -> & Hid & Hb).
      exists (p :: before), after. repeat split; [exact Hid|].
      constructor; assumption.
  - intros (before & after & -> & Hid & Hb).
    induction Hb as [|p before Hp Hb IH]; cbn.
    + apply Z.eqb_eq in Hid. rewrite Hid. reflexivity.
    + apply Z.eqb_neq in Hp. rewrite Hp. exact IH.
Qed.

(** [find_peer] finds nothing exactly when no entry has the id. *)
Theorem find_peer_none (peers : list peerlist_t) (peerid : Z) :
  find_peer peers peerid = None <->
  Forall (fun p => h_id (peer_host p) <> peerid) peers.
Proof.
  induction peers as [|p peers IH]; cbn.
  - split; [constructor|reflexivity].
  - destruct (Z.eqb_spec (h_id (peer_host p)) peerid) as [E|E].
    + split; [discriminate|]. intros H. inversion H. contradiction.
    + rewrite IH. split; [intros H; constructor; assumption|].
      intros H. inversion H. assumption.
Qed.

(** ** The choice of the socket *)

(** A master on this host with a socket path is contacted over UDS, and
    only over UDS: when that connection fails the results are abandoned
    without any read or write, and TCP is not tried even if the master
    has a port. *)
Theorem uds_failure_no_tcp (w : world) (n : network) (s : slave)
    (peer : peerlist_t) :
  find_peer (peerlist n) (peerid s) = Some peer ->
  h_socket (peer_host peer) <> "" ->
  h_name (peer_host peer) = h_name (host s) ->
  open_uds_connection n (h_socket (peer_host peer)) < 0 ->
  trace_of (send_results w n s)
  = [Lock mutexpeerlist; Lock mutexhost; Unlock mutexhost;
     OpenUds (h_socket (peer_host peer)); Unlock mutexpeerlist]
  /\ server (final_state (send_results w n s))
     = Some (open_uds_connection n (h_socket (peer_host peer))).
Proof.
  intros Hpeer Hsock Hname Hfd.
  assert (Hu : negb (String.length (h_socket (peer_host peer)) =? 0)%nat
               && (h_name (peer_host peer) =? h_name (host s))%string = true).
  { rewrite Hname, String.eqb_refl, andb_true_r.
    destruct (h_socket (peer_host peer)); [contradiction|reflexivity]. }
  unfold send_results. run_M. rewrite Hpeer, Hu. cbn.
  destruct (Z.ltb_spec (open_uds_connection n (h_socket (peer_host peer))) 0);
    [|lia].
  split; reflexivity.
Qed.

Lemma uds_failure_no_tcp_witness :
  let s := final_state (process_job ex_world (ex_slave [ex_job 7 10])) in
  trace_of (send_results ex_world ex_network_uds_fails s)
  = [Lock mutexpeerlist; Lock mutexhost; Unlock mutexhost;
     OpenUds "/tmp/peer.42"; Unlock mutexpeerlist]
  /\ server (final_state (send_results ex_world ex_network_uds_fails s)) = Some (-1).
Proof.
  cbv zeta.
  apply (uds_failure_no_tcp ex_world ex_network_uds_fails
           (final_state (process_job ex_world (ex_slave [ex_job 7 10])))
           {| peer_host := ex_master_local; peer_ipaddr := "10.0.0.1" |}).
  - reflexivity.
  - discriminate.
  - reflexivity.
  - simpl. lia.
Defined.

(** ** The host descriptor between two passes *)

(** Returning the results of a job for which the engine did start: the
    host becomes idle, and this is the one announcement. *)
Lemma return_results_idle (w : world) (n : network) (s : slave) :
  engineFailed s = 0 ->
  let r := return_results w n s in
  host (final_state r) = set_status_current STATUS_IDLE current_zero (host s)
  /\ engineFailed (final_state r) = 0
  /\ matlabRunning (final_state r) = matlabRunning s
  /\ matlabFinished (final_state r) = to_int (time_finished w)
  /\ List.filter is_announce (trace_of r)
     = [Announce (set_status_current STATUS_IDLE current_zero (host s))].
Proof.
  intros Hz r. subst r. unfold return_results.
  rewrite !final_state_bind, !trace_of_bind, !List.filter_app.
  pose proof (send_results_spec w n s) as (Hs & _ & Hq & _).
  set (s1 := final_state (send_results w n s)) in *.
  pose proof (cleanup_only_send_vars s1) as Hc.
  pose proof (cleanup_silent s1) as Hcq.
  set (s2 := final_state (cleanup s1)) in *.
  assert (Hz2 : engineFailed s2 = 0) by (rewrite Hc, Hs; exact Hz).
  assert (Hh2 : host s2 = host s) by (rewrite Hc, Hs; reflexivity).
  assert (Hr2 : matlabRunning s2 = matlabRunning s) by (rewrite Hc, Hs; reflexivity).
  clearbody s2. clearbody s1.
  rewrite (finish_job_idle w s2 Hz2).
  cbn [final_state trace_of fst snd].
  assert (Hn1 : List.filter is_announce (trace_of (send_results w n s)) = []).
  { clear -Hq. induction (trace_of (send_results w n s)) as [|e tr IH];
      [reflexivity|].
    cbn in *. apply andb_true_iff in Hq as [He Htr].
    apply negb_true_iff, orb_false_iff in He as [_ He].
    rewrite He. apply IH, Htr. }
  assert (Hn2 : List.filter is_announce (trace_of (cleanup s1)) = []).
  { clear -Hcq. induction (trace_of (cleanup s1)) as [|e tr IH]; [reflexivity|].
    cbn in *. apply andb_true_iff in Hcq as [He Htr].
    apply negb_true_iff, orb_false_iff in He as [He _].
    apply orb_false_iff in He as [_ He].
    rewrite He. apply IH, Htr. }
  rewrite Hn1, Hn2. cbn. rewrite Hh2, Hr2, Hz2. repeat split; reflexivity.
Qed.

Lemma start_engine_zombie (w : world) (s : slave) :
  (matlabRunning s <> 0 -> engineFailed s = 0) ->
  let r := start_engine w s in
  engineFailed (final_state r) <> 0 ->
  h_status (host (final_state r)) = STATUS_ZOMBIE
  /\ h_current (host (final_state r)) = current_zero
  /\ matlabRunning (final_state r) = 0.
Proof.
  intros Hinv.
  destruct s as [h jl et sc mr ms mf ef ea jf jn ta ji pi ao op sv ar ot df].
  cbn in Hinv. start_crunch. unfold start_engine. run_M. cbn. crunch.
  all: end_crunch; cbn; intros Hne.
  all: try (repeat split; reflexivity).
  all: try contradiction.
  all: match goal with H : (_ =? 0) = false |- _ => apply Z.eqb_neq in H end.
  all: exfalso; auto.
Qed.

Lemma run_job_not_running (w : world) (s : slave) :
  matlabRunning s = 0 -> run_job w s = (tt, s, []).
Proof. intros H. unfold run_job. run_M. rewrite H. reflexivity. Qed.

Lemma run_job_keeps_engineFailed (w : world) : keeps engineFailed (run_job w).
Proof.
  intros s. destruct s. unfold run_job, take_job, execute_job. run_M. cbn.
  crunch; reflexivity.
Qed.

Lemma report_keeps (s : slave) :
  let r := (note_failure;; synthesize_error : M unit) s in
  host (final_state r) = host s
  /\ engineFailed (final_state r) = engineFailed s
  /\ matlabRunning (final_state r) = matlabRunning s.
Proof.
  destruct s. unfold note_failure, synthesize_error. run_M. cbn.
  crunch; repeat split; reflexivity.
Qed.

(** After [process_job], a failure of the engine is on record only if the
    host was made a zombie and the engine is not running. *)
Lemma process_job_zombie (w : world) (s : slave) :
  (matlabRunning s <> 0 -> engineFailed s = 0) ->
  let r := process_job w s in
  engineFailed (final_state r) <> 0 ->
  h_status (host (final_state r)) = STATUS_ZOMBIE
  /\ h_current (host (final_state r)) = current_zero
  /\ matlabRunning (final_state r) = 0.
Proof.
  intros Hinv r. subst r. unfold process_job.
  rewrite !final_state_bind.
  pose proof (start_engine_zombie w s Hinv) as H1. cbv zeta in H1.
  set (s1 := final_state (start_engine w s)) in *. clearbody s1.
  pose proof (run_job_keeps_engineFailed w s1) as H2.
  pose proof (run_job_not_running w s1) as H2'.
  set (s2 := final_state (run_job w s1)) in *.
  pose proof (report_keeps s2) as (Hh & Hf & Hr). cbv zeta in Hh, Hf, Hr.
  rewrite final_state_bind in Hh, Hf, Hr.
  rewrite Hh, Hf, Hr. intros Hne. rewrite H2 in Hne.
  destruct (H1 Hne) as (Hst & Hc & Hrun).
  unfold s2. rewrite (H2' Hrun). cbn [final_state fst snd]. auto.
Qed.

Lemma between_passes_tick (t : tick) (s : slave) :
  between_passes s -> between_passes (final_state (slave_tick t s)).
Proof.
  intros (Hcur & Hidle & Hzombie).
  unfold slave_tick. rewrite final_state_bind.
  set (s0 := final_state (receive (arrivals t) s)).
  assert (H0 : host s0 = host s /\ engineFailed s0 = engineFailed s
               /\ matlabRunning s0 = matlabRunning s)
    by (repeat split; reflexivity).
  destruct H0 as (Hh0 & Hf0 & Hr0). clearbody s0.
  unfold slave_iteration. rewrite !final_state_bind.
  set (s1 := final_state (close_idle_engine (the_world t) s0)).
  assert (H1 : host s1 = host s /\ engineFailed s1 = engineFailed s
               /\ (matlabRunning s1 <> 0 -> matlabRunning s1 = matlabRunning s)).
  { rewrite <- Hh0, <- Hf0, <- Hr0. unfold s1. generalize s0. intros x.
    clear.
    destruct x. unfold close_idle_engine. run_M. cbn.
    crunch; repeat split; try reflexivity; intros Hx; contradiction. }
  destruct H1 as (Hh1 & Hf1 & Hr1). clearbody s1.
  cbn [get final_state fst snd].
  destruct (zombie_expired (the_world t) s1).
  - unfold between_passes. cbn.
    split; [reflexivity|split; [reflexivity|]].
    intros Hx. exfalso. apply Hx. reflexivity.
  - rewrite final_state_bind. cbn [jobcount].
    set (c := (jobcount s1).1.1).
    assert (Hj : final_state (jobcount s1) = s1) by reflexivity.
    rewrite Hj. clearbody c.
    destruct (c >? 0).
    + rewrite final_state_bind.
      assert (Hinv : matlabRunning s1 <> 0 -> engineFailed s1 = 0).
      { intros Hrun. rewrite Hf1.
        destruct (Z.eq_dec (engineFailed s) 0) as [E|E]; [exact E|].
        destruct (Hzombie E) as [_ Hstop].
        rewrite (Hr1 Hrun) in Hrun. contradiction. }
      pose proof (process_job_zombie (the_world t) s1 Hinv) as He.
      cbv zeta in He.
      set (e := final_state (process_job (the_world t) s1)) in *.
      clearbody e.
      destruct (Z.eq_dec (engineFailed e) 0) as [E|E].
      * destruct (return_results_idle (the_world t) (the_network t) e E)
          as (Rh & Rf & _).
        unfold between_passes. rewrite Rh, Rf.
        split; [reflexivity|split; [reflexivity|]].
        intros Hx. exfalso. apply Hx. reflexivity.
      * destruct (return_results_zombie (the_world t) (the_network t) e E)
          as (Rh & Rf & Rr & _).
        destruct (He E) as (Hst & Hc & Hrun).
        unfold between_passes. rewrite Rh, Rf, Rr.
        split; [exact Hc|split; [intros Hx; contradiction|]].
        intros _. split; assumption.
    + cbn. unfold between_passes. rewrite Hh1, Hf1.
      split; [exact Hcur|split; [exact Hidle|]].
      intros Hx. split; [apply Hzombie, Hx|].
      destruct (Z.eq_dec (matlabRunning s1) 0) as [E0|E0]; [exact E0|].
      rewrite (Hr1 E0). apply Hzombie, Hx.
Qed.

(** From its start and after any number of passes, whatever the engine,
    the network and the submitters do, the slave is found between two
    passes with a host that is not busy and describes no job, that is a
    zombie exactly while an engine failure is on record, and with the
    engine stopped while it is a zombie. *)
Theorem slave_between_passes (ticks : list tick) (h : hostdef_t)
    (timeout : Z) (cmd : string) :
  between_passes (final_state (slave_main ticks (initial_slave h timeout cmd))).
Proof.
  unfold slave_main. rewrite final_state_bind.
  set (s := final_state (publish_status _ _ _)).
  assert (Hs : between_passes s).
  { unfold between_passes, s. cbn.
    split; [reflexivity|split; [reflexivity|]].
    intros Hx. exfalso. apply Hx. reflexivity. }
  clearbody s. revert s Hs.
  induction ticks as [|t ticks IH]; intros s Hs.
  - cbn [slave_loop]. run_M. destruct (engineAborted s =? 0); exact Hs.
  - destruct (Z.eq_dec (engineAborted s) 0) as [E|E].
    + rewrite (slave_loop_step t ticks s E). cbn [final_state fst snd].
      apply IH, between_passes_tick, Hs.
    + rewrite (slave_loop_aborted _ s E). exact Hs.
Qed.

(** ** What the peers are told *)

Lemma last_announced_app (t1 t2 : list event) (h : hostdef_t) :
  last_announced (t1 ++ t2) h = last_announced t2 (last_announced t1 h).
Proof.
  revert h. induction t1 as [|e t1 IH]; intros h; [reflexivity|].
  destruct e; cbn; apply IH.
Qed.

Lemma last_announced_quiet (tr : list event) (h : hostdef_t) :
  forallb (fun e => negb (is_announce e)) tr = true -> last_announced tr h = h.
Proof.
  induction tr as [|e tr IH]; [reflexivity|].
  cbn. intros H. apply andb_true_iff in H as [He Htr].
  destruct e; try discriminate He; cbn; apply IH, Htr.
Qed.

Lemma announces_host_bind {A B} (m : M A) (k : A -> M B) :
  announces_host m -> (forall a, announces_host (k a)) ->
  announces_host (m ≫= k).
Proof.
  intros Hm Hk s.
  rewrite final_state_bind, trace_of_bind, last_announced_app, Hk, Hm.
  reflexivity.
Qed.

Ltac announces_by_cases unfolding :=
  intros s; destruct s; unfolding; run_M; cbn; crunch; reflexivity.

Lemma receive_announces (jobs : list joblist_t) : announces_host (receive jobs).
Proof. intros s. reflexivity. Qed.

Lemma publish_status_announces (st : status_t) (c : current_t) :
  announces_host (publish_status st c).
Proof. intros s. reflexivity. Qed.

Lemma close_idle_engine_announces (w : world) :
  announces_host (close_idle_engine w).
Proof. announces_by_cases ltac:(unfold close_idle_engine). Qed.

Lemma start_engine_announces (w : world) : announces_host (start_engine w).
Proof. announces_by_cases ltac:(unfold start_engine). Qed.

Lemma run_job_announces (w : world) : announces_host (run_job w).
Proof. announces_by_cases ltac:(unfold run_job, take_job, execute_job). Qed.

Lemma note_failure_announces : announces_host note_failure.
Proof. announces_by_cases ltac:(unfold note_failure). Qed.

Lemma synthesize_error_announces : announces_host synthesize_error.
Proof. announces_by_cases ltac:(unfold synthesize_error). Qed.

Lemma finish_job_announces (w : world) : announces_host (finish_job w).
Proof. announces_by_cases ltac:(unfold finish_job). Qed.

Lemma send_results_announces (w : world) (n : network) :
  announces_host (send_results w n).
Proof.
  intros s. destruct (send_results_spec w n s) as (Hf & _ & He & _).
  rewrite Hf. rewrite last_announced_quiet; [reflexivity|].
  apply (forallb_weaken _ _ _ He).
  intros e H. apply negb_true_iff, orb_false_iff in H as [_ H].
  rewrite H. reflexivity.
Qed.

Lemma cleanup_announces : announces_host cleanup.
Proof.
  intros s. rewrite (cleanup_only_send_vars s).
  rewrite last_announced_quiet; [reflexivity|].
  apply (forallb_weaken _ _ _ (cleanup_silent s)).
  intros e H. apply negb_true_iff, orb_false_iff in H as [H _].
  apply orb_false_iff in H as [_ H]. rewrite H. reflexivity.
Qed.

Lemma slave_iteration_announces (w : world) (n : network) :
  announces_host (slave_iteration w n).
Proof.
  unfold slave_iteration.
  apply announces_host_bind; [apply close_idle_engine_announces | intros _].
  apply announces_host_bind; [intros s; reflexivity | intros s0].
  destruct (zombie_expired w s0).
  - intros s. reflexivity.
  - apply announces_host_bind; [intros s; reflexivity | intros c].
    destruct (c >? 0); [|intros s; reflexivity].
    apply announces_host_bind; [|intros _].
    + unfold process_job.
      apply announces_host_bind; [apply start_engine_announces | intros _].
      apply announces_host_bind; [apply run_job_announces | intros _].
      apply announces_host_bind; [apply note_failure_announces | intros _].
      apply synthesize_error_announces.
    + unfold return_results.
      apply announces_host_bind; [apply send_results_announces | intros _].
      apply announces_host_bind; [apply cleanup_announces | intros _].
      apply finish_job_announces.
Qed.

Lemma slave_loop_announces (ticks : list tick) :
  announces_host (slave_loop ticks).
Proof.
  induction ticks as [|t ticks IH]; intros s.
  - cbn [slave_loop]. run_M. destruct (engineAborted s =? 0); reflexivity.
  - destruct (Z.eq_dec (engineAborted s) 0) as [E|E].
    + rewrite (slave_loop_step t ticks s E).
      cbn [final_state trace_of fst snd].
      rewrite last_announced_app.
      change (host (final_state (slave_loop ticks (final_state (slave_tick t s))))
              = last_announced
                  (trace_of (slave_loop ticks (final_state (slave_tick t s))))
                  (last_announced (trace_of (slave_tick t s)) (host s))).
      rewrite IH. f_equal.
      revert s E. enough (H : announces_host (slave_tick t))
        by (intros s _; apply H).
      unfold slave_tick.
      apply announces_host_bind; [apply receive_announces | intros _].
      apply slave_iteration_announces.
    + rewrite (slave_loop_aborted _ s E). reflexivity.
Qed.

(** However long the slave runs and whatever happens to its jobs, when it
    is between two passes or has left the loop, the host descriptor is
    the one it announced last: no change of the status or of the current
    job is left unannounced. *)
Theorem slave_announces_host (ticks : list tick) (s : slave) :
  let r := slave_main ticks s in
  host (final_state r) = last_announced (trace_of r) (host s)
  /\ (count is_announce (trace_of r) > 0)%nat.
Proof.
  cbv zeta. split.
  - revert s. change (announces_host (slave_main ticks)).
    unfold slave_main.
    apply announces_host_bind; [apply publish_status_announces | intros _].
    apply slave_loop_announces.
  - unfold slave_main. rewrite trace_of_bind, count_app.
    change (count is_announce (trace_of (publish_status STATUS_IDLE current_zero s)))
      with 1%nat.
    lia.
Qed.

(** ** The exit status *)

Lemma run_job_aborted (w : world) (s : slave) :
  engineAborted (final_state (run_job w s)) = engineAborted s
  \/ engineAborted (final_state (run_job w s)) = 1.
Proof.
  destruct s. unfold run_job, take_job, execute_job. run_M. cbn.
  crunch; auto.
Qed.

Lemma slave_tick_aborted (t : tick) (s : slave) :
  engineAborted (final_state (slave_tick t s)) = engineAborted s
  \/ engineAborted (final_state (slave_tick t s)) = 1.
Proof.
  destruct (slave_tick_runs_one_job t s)
    as [[_ H]|(pre & post & s2 & _ & _ & _ & Hs2 & _ & Hab)].
  - left. exact H.
  - rewrite Hab, <- Hs2. apply run_job_aborted.
Qed.

Lemma slave_loop_exit (ticks : list tick) (s : slave) :
  engineAborted s = 0 ->
  let r := slave_loop ticks s in
  (r.1.1 = None /\ engineAborted (final_state r) = 0)
  \/ (r.1.1 = Some 1 /\ engineAborted (final_state r) = 1).
Proof.
  revert s. induction ticks as [|t ticks IH]; intros s E; cbv zeta.
  - cbn [slave_loop]. run_M. rewrite E. cbn. left. split; [reflexivity|exact E].
  - rewrite (slave_loop_step t ticks s E).
    cbn [final_state fst snd].
    destruct (slave_tick_aborted t s) as [H|H].
    + apply (IH (final_state (slave_tick t s))). rewrite H. exact E.
    + right.
      assert (Hne : engineAborted (final_state (slave_tick t s)) <> 0)
        by (rewrite H; discriminate).
      rewrite (slave_loop_aborted ticks _ Hne). cbn [final_state fst snd].
      rewrite H. split; reflexivity.
Qed.

(** The slave loop is left only by [return engineAborted] with the value
    1: a slave started from the locals as [main] declares them either is
    still looping after the last tick, with [engineAborted] still 0, or
    has exited with status 1.  It never exits with status 0. *)
Theorem slave_exit_status (ticks : list tick) (h : hostdef_t) (timeout : Z)
    (cmd : string) :
  let r := slave_main ticks (initial_slave h timeout cmd) in
  (r.1.1 = None /\ engineAborted (final_state r) = 0)
  \/ (r.1.1 = Some 1 /\ engineAborted (final_state r) = 1).
Proof.
  cbv zeta. unfold slave_main. rewrite result_bind, final_state_bind.
  apply slave_loop_exit. reflexivity.
Qed.

(** ** A job that succeeds *)








(** ** The report of a job that failed *)

Lemma start_engine_available (w : world) (s : slave) :
  engineFailed s = 0 ->
  matlabRunning s <> 0 \/ engOpen w = true ->
  let s1 := final_state (start_engine w s) in
  matlabRunning s1 <> 0 /\ engineFailed s1 = 0 /\ joblist s1 = joblist s.
Proof.
  intros Hf Heng.
  destruct s as [h jl et sc mr ms mf ef ea jf jn ta ji pi ao op sv ar ot df].
  cbn in *. subst.
  unfold start_engine. run_M. cbn.
  destruct (Z.eqb_spec mr 0) as [E|E].
  - destruct Heng as [Heng|Heng]; [contradiction|].
    rewrite Heng. cbn. repeat split. discriminate.
  - cbn. repeat split. exact E.
Qed.

Lemma run_job_failure (w : world) (s : slave) :
  matlabRunning s <> 0 -> joblist s <> [] ->
  let s2 := final_state (run_job w s) in
  0 <= jobFailed s2 <= 5
  /\ engineFailed s2 = engineFailed s /\ joblist s2 = joblist s.
Proof.
  intros Hrun Hq.
  destruct s as [h jl et sc mr ms mf ef ea jf jn ta ji pi ao op sv ar ot df].
  cbn in Hrun, Hq. apply Z.eqb_neq in Hrun.
  destruct jl as [|job rest]; [contradiction|].
  unfold run_job, take_job, execute_job. run_M. cbn. rewrite Hrun. cbn.
  crunch; repeat split; try reflexivity; lia.
Qed.

Lemma report_failure (s : slave) (job : joblist_t) (rest : list joblist_t) :
  engineFailed s = 0 -> jobFailed s <> 0 -> joblist s = job :: rest ->
  let e := final_state ((note_failure;; synthesize_error : M unit) s) in
  jobFailed e = jobFailed s
  /\ argout e = Some (mxCreateCellMatrix 1 1)
  /\ options e = Some (lasterr (failure_message (jobFailed s)))
  /\ peerid e = to_uint (h_id (job_host job))
  /\ jobid e = to_uint (d_id (job_job job)).
Proof.
  intros Hf Hj Hq. destruct s. cbn in Hf, Hj, Hq. subst.
  apply Z.eqb_neq in Hj.
  unfold note_failure, synthesize_error. run_M. cbn. rewrite Hj. cbn.
  rewrite Hj. cbn. repeat split; reflexivity.
Qed.

Lemma failure_message_step (j k : Z) :
  1 <= j <= 5 -> 1 <= k <= 5 ->
  failure_message j = failure_message k -> j = k.
Proof.
  intros Hj Hk.
  assert (Ej : j = 1 \/ j = 2 \/ j = 3 \/ j = 4 \/ j = 5) by lia.
  assert (Ek : k = 1 \/ k = 2 \/ k = 3 \/ k = 4 \/ k = 5) by lia.
  destruct Ej as [-> | [-> | [-> | [-> | ->]]]];
    destruct Ek as [-> | [-> | [-> | [-> | ->]]]];
    first [reflexivity | discriminate].
Qed.

(** When the engine is there and a step of the job fails, the output that
    goes back to the master of the job, under the id of the job, is a
    one-cell [argout] and the options ["lasterr", message], where the
    message is the one of the step that failed; the five steps have five
    different messages, so that the master can tell which step it was. *)
Theorem job_failure_report (w : world) (s : slave) (job : joblist_t)
    (rest : list joblist_t) :
  joblist s = job :: rest ->
  engineFailed s = 0 ->
  matlabRunning s <> 0 \/ engOpen w = true ->
  let e := final_state (process_job w s) in
  jobFailed e <> 0 ->
  1 <= jobFailed e <= 5
  /\ argout e = Some (MxCell [None])
  /\ options e = Some (MxCell [Some (MxString "lasterr");
                               Some (MxString (failure_message (jobFailed e)))])
  /\ peerid e = to_uint (h_id (job_host job))
  /\ jobid e = to_uint (d_id (job_job job))
  /\ (forall k, 1 <= k <= 5 ->
        failure_message k = failure_message (jobFailed e) -> k = jobFailed e).
Proof.
  intros Hq Hf Heng e. subst e. unfold process_job.
  rewrite !final_state_bind.
  destruct (start_engine_available w s Hf Heng) as (Hrun1 & Hf1 & Hq1).
  set (s1 := final_state (start_engine w s)) in *. clearbody s1.
  rewrite Hq in Hq1.
  assert (Hne : joblist s1 <> []) by (rewrite Hq1; discriminate).
  destruct (run_job_failure w s1 Hrun1 Hne) as (Hk & Hf2 & Hq2).
  set (s2 := final_state (run_job w s1)) in *. clearbody s2.
  rewrite Hf1 in Hf2. rewrite Hq1 in Hq2.
  destruct (Z.eq_dec (jobFailed s2) 0) as [E|E].
  - intros Hbad. exfalso. apply Hbad.
    clear -E Hf2. destruct s2. cbn in E, Hf2. subst.
    unfold note_failure, synthesize_error. run_M. reflexivity.
  - intros _.
    destruct (report_failure s2 job rest Hf2 E Hq2) as (Rj & Ra & Ro & Rp & Ri).
    rewrite final_state_bind in Rj, Ra, Ro, Rp, Ri.
    rewrite Rj, Ra, Ro, Rp, Ri.
    split; [lia|]. repeat split.
    intros k Hk1. apply failure_message_step; [exact Hk1 | lia].
Qed.

Lemma job_failure_report_witness :
  let e := final_state (process_job ex_world_eval_fails (ex_slave [ex_job 7 10])) in
  jobFailed e = 3
  /\ options e = Some (MxCell [Some (MxString "lasterr");
                               Some (MxString "failed to execute the job (eval)")])
  /\ peerid e = 42.
Proof.
  cbv zeta.
  assert (Hk : jobFailed (final_state (process_job ex_world_eval_fails
                                         (ex_slave [ex_job 7 10]))) = 3)
    by reflexivity.
  destruct (job_failure_report ex_world_eval_fails (ex_slave [ex_job 7 10])
              (ex_job 7 10) [] eq_refl eq_refl (or_intror eq_refl))
    as (_ & _ & Ho & Hp & _).
  - rewrite Hk. discriminate.
  - split; [exact Hk|]. split; [|exact Hp].
    rewrite Ho, Hk. reflexivity.
Defined.

(** ** The connection to the master *)

Lemma send_results_socket (w : world) (n : network) (s : slave)
    (peer : peerlist_t) :
  find_peer (peerlist n) (peerid s) = Some peer ->
  offers_socket s peer = true ->
  let r := send_results w n s in
  let fd := connection_of n s peer in
  forallb (uses_socket fd) (trace_of r) = true
  /\ List.filter is_close (trace_of r) = []
  /\ (fd < 0 -> List.filter is_socket_io (trace_of r) = [])
  /\ server (final_state r) = Some fd
  /\ (exists a, arg (final_state r) = Some a)
  /\ (exists b, opt (final_state r) = Some b)
  /\ (exists d, def (final_state r) = Some d).
Proof.
  intros Hpeer Hoff.
  destruct s as [h jl et sc mr ms mf ef ea jf jn ta ji pi ao op sv ar ot df].
  unfold offers_socket in Hoff. cbn in Hpeer, Hoff.
  start_crunch.
  unfold send_results, send_message, read_handshake, write_segment.
  run_M. cbn. rewrite Hpeer.
  destruct (negb (String.length (h_socket (peer_host peer)) =? 0)%nat
            && (h_name (peer_host peer) =? h_name h)%string) eqn:Euds;
    cbn in Hoff; rewrite ?Hoff; cbn.
  all: destruct (Z.ltb_spec (open_uds_connection n (h_socket (peer_host peer))) 0);
    destruct (Z.ltb_spec (open_tcp_connection n (peer_ipaddr peer)
                            (h_port (peer_host peer))) 0); cbn.
  all: crunch.
  all: end_crunch; cbv beta zeta; unfold connection_of; cbn; rewrite ?Euds;
    rewrite ?Z.eqb_refl; cbn.
  all: repeat split; try reflexivity; try (eexists; reflexivity); try lia.
Qed.

Lemma cleanup_closes (s : slave) (fd : Z) :
  server s = Some fd ->
  List.filter is_close (trace_of (cleanup s))
  = (if fd >? 0 then [CloseConnection fd] else [])
  /\ forallb (uses_socket fd) (trace_of (cleanup s)) = true
  /\ List.filter is_socket_io (trace_of (cleanup s)) = [].
Proof.
  intros Hs. destruct s. cbn in Hs. subst.
  unfold cleanup. run_M. cbn.
  destruct (fd >? 0); cbn; crunch; rewrite ?Z.eqb_refl; repeat split.
Qed.

Lemma finish_job_no_socket (w : world) (s : slave) (fd : Z) :
  List.filter is_close (trace_of (finish_job w s)) = []
  /\ forallb (uses_socket fd) (trace_of (finish_job w s)) = true
  /\ List.filter is_socket_io (trace_of (finish_job w s)) = []
  /\ server (final_state (finish_job w s)) = server s.
Proof.
  destruct s. unfold finish_job. run_M. cbn. crunch; repeat split.
Qed.

(** When the master of the job is in the peer table and offers a socket,
    every read and write of the pass goes over the descriptor that the
    connection gave and comes before its close; the connection is closed
    once if the descriptor is positive and is not closed otherwise: after
    a failure to connect (a negative descriptor) nothing is read,
    written or closed, and a descriptor 0 is used for the protocol but
    never closed.  The local [server] ends as 0 or as the negative
    descriptor. *)
Theorem connection_closed_once (w : world) (n : network) (s : slave)
    (peer : peerlist_t) :
  find_peer (peerlist n) (peerid s) = Some peer ->
  offers_socket s peer = true ->
  let r := return_results w n s in
  let fd := connection_of n s peer in
  forallb (uses_socket fd) (trace_of r) = true
  /\ List.filter is_close (trace_of r)
     = (if fd >? 0 then [CloseConnection fd] else [])
  /\ (fd < 0 -> List.filter is_socket_io (trace_of r) = [])
  /\ server (final_state r) = Some (if fd >? 0 then 0 else fd)
  /\ exists before after,
       trace_of r = before ++ after
       /\ List.filter is_close before = []
       /\ List.filter is_socket_io after = [].
Proof.
  intros Hpeer Hoff r fd. subst r fd. unfold return_results.
  rewrite !final_state_bind, !trace_of_bind, !forallb_app, !List.filter_app.
  destruct (send_results_socket w n s peer Hpeer Hoff)
    as (S1 & S2 & S3 & S4 & [a Sa] & [b Sb] & [d Sd]).
  set (s1 := final_state (send_results w n s)) in *.
  destruct (cleanup_closes s1 _ S4) as (C1 & C2 & C3).
  destruct (cleanup_assigned s1 _ a b d S4 Sa Sb Sd) as (C4 & _).
  apply (f_equal server) in C4. cbn in C4.
  set (s2 := final_state (cleanup s1)) in *.
  destruct (finish_job_no_socket w s2 (connection_of n s peer))
    as (F1 & F2 & F3 & F4).
  rewrite S1, S2, C1, C2, F1, F2, F4, C3, F3, C4, app_nil_r.
  split; [reflexivity|]. split; [reflexivity|].
  split; [intros Hneg; rewrite (S3 Hneg); reflexivity|].
  split; [reflexivity|].
  exists (trace_of (send_results w n s)),
    (trace_of (cleanup s1) ++ trace_of (finish_job w s2)).
  split; [reflexivity|]. split; [exact S2|].
  rewrite List.filter_app, C3, F3. reflexivity.
Qed.

Lemma connection_closed_once_witness :
  List.filter is_close
    (trace_of (return_results ex_world ex_network
                 (final_state (process_job ex_world (ex_slave [ex_job 7 10])))))
  = [CloseConnection 5].
Proof.
  refine (proj1 (proj2 (connection_closed_once ex_world ex_network
            (final_state (process_job ex_world (ex_slave [ex_job 7 10])))
            {| peer_host := ex_master; peer_ipaddr := "10.0.0.1" |} _ _)));
    reflexivity.
Defined.

(** ** The command line *)

Lemma parse_options_spec (results : list getopt_t) (help_flag : Z)
    (conf : config_t) :
  match parse_options results help_flag conf with
  | inl msg =>
      forallb valid_option results = false
      /\ msg = ("invalid command line options" +:+ newline)%string
  | inr (help_flag', conf') =>
      forallb valid_option results = true
      /\ help_flag' = (if existsb is_flag results then 1 else help_flag)
      /\ conf_pid conf' = conf_pid conf
      /\ forall c, conf_field conf' c
                   = match last_value c results with
                     | Some v => Some v
                     | None => conf_field conf c
                     end
  end.
Proof.
  revert help_flag conf.
  induction results as [|r results IH]; intros help_flag conf.
  - cbn. repeat split.
  - destruct r as [|c optarg|]; cbn [parse_options forallb valid_option].
    + specialize (IH 1 conf).
      destruct (parse_options results 1 conf) as [msg|[hf conf']];
        [exact IH|].
      destruct IH as (Hv & Hh & Hp & Hc). cbn.
      split; [exact Hv|]. split; [|split; [exact Hp|]].
      * rewrite Hh. destruct (existsb is_flag results); reflexivity.
      * intros c. rewrite Hc. destruct (last_value c results); reflexivity.
    + destruct ((1 <=? c) && (c <=? 14)); [|split; reflexivity].
      specialize (IH help_flag (store_option c optarg conf)).
      destruct (parse_options results help_flag (store_option c optarg conf))
        as [msg|[hf conf']]; [exact IH|].
      destruct IH as (Hv & Hh & Hp & Hc). cbn.
      split; [exact Hv|]. split; [exact Hh|]. split; [exact Hp|].
      intros c0. rewrite Hc. cbn.
      destruct (last_value c0 results); [reflexivity|].
      rewrite (Z.eqb_sym c0 c). destruct (c =? c0); reflexivity.
    + split; reflexivity.
Qed.

(** With no argument or with more than one, the command line is read by
    [getopt_long].  An option that the program does not know is a PANIC
    wherever it stands, also next to [--help]; the usage message is
    printed when all options are known and [--help] is among them;
    otherwise one slave is started, and each field of its configuration
    holds the argument of the last occurrence of its option, or nothing
    when the option was not given. *)
Theorem command_line_options
    (parsefile : string -> Z * list config_t)
    (getopt_long : list string -> list getopt_t) (argv : list string) :
  length argv <> 2%nat ->
  let results := getopt_long argv in
  match startup parsefile getopt_long argv with
  | Panic msg =>
      forallb valid_option results = false
      /\ msg = ("invalid command line options" +:+ newline)%string
  | Help =>
      forallb valid_option results = true /\ existsb is_flag results = true
  | Start numpeer pconf =>
      forallb valid_option results = true /\ existsb is_flag results = false
      /\ numpeer = 1
      /\ exists conf,
           pconf = [conf] /\ conf_pid conf = 0
           /\ forall c, conf_field conf c = last_value c results
  end.
Proof.
  intros Hargc results. subst results. unfold startup.
  apply Nat.eqb_neq in Hargc. rewrite Hargc.
  pose proof (parse_options_spec (getopt_long argv) 0 initconfig) as H.
  destruct (parse_options (getopt_long argv) 0 initconfig) as [msg|[hf conf]].
  - exact H.
  - destruct H as (Hv & Hh & Hp & Hc). rewrite Hh.
    destruct (existsb is_flag (getopt_long argv)); cbn.
    + split; [exact Hv|reflexivity].
    + split; [exact Hv|]. split; [reflexivity|]. split; [reflexivity|].
      exists conf. split; [reflexivity|]. split; [exact Hp|].
      intros c. rewrite Hc. destruct (last_value c (getopt_long argv)); reflexivity.
Qed.

Lemma command_line_options_witness :
  startup (fun _ => (0, []))
    (fun _ => [GetoptFlag; GetoptInvalid]) ["peerslave"; "--help"; "--bogus"]
  = Panic ("invalid command line options" +:+ newline).
Proof.
  pose proof (command_line_options (fun _ => (0, []))
                (fun _ => [GetoptFlag; GetoptInvalid])
                ["peerslave"; "--help"; "--bogus"]) as H.
  cbv zeta in H.
  destruct (startup _ _ _) as [|msg|numpeer pconf].
  - destruct H as [H _]; [discriminate|]. discriminate H.
  - destruct H as [_ ->]; [discriminate|]. reflexivity.
  - destruct H as (H & _); [discriminate|]. discriminate H.
Defined.

(** With exactly one argument, the argument names a configuration file:
    the usage message is never printed, and the number that [parsefile]
    returns is stored in an [unsigned int], so that the PANIC is for the
    count 0 only: any other number, also a negative one, starts the
    supervisor with that number taken modulo 2^32. *)
Theorem config_file_startup
    (parsefile : string -> Z * list config_t)
    (getopt_long : list string -> list getopt_t) (argv : list string)
    (file : string) :
  length argv = 2%nat ->
  argv !! 1%nat = Some file ->
  startup parsefile getopt_long argv
  = if to_uint (parsefile file).1 =? 0
    then Panic "cannot read the configuration file"
    else Start (to_uint (parsefile file).1) (parsefile file).2.
Proof.
  intros Hargc Hfile. unfold startup. rewrite Hargc, Hfile. cbn.
  destruct (parsefile file) as [numpeer pconf]. cbn.
  assert (H : 0 <= to_uint numpeer).
  { unfold to_uint, wrap. apply Z.mod_pos_bound. reflexivity. }
  destruct (Z.ltb_spec (to_uint numpeer) 1);
    destruct (Z.eqb_spec (to_uint numpeer) 0); try reflexivity; lia.
Qed.

Lemma config_file_startup_witness :
  startup (fun _ => (-1, [])) (fun _ => []) ["peerslave"; "slaves.conf"]
  = Start 4294967295 [].
Proof.
  apply (config_file_startup (fun _ => (-1, [])) (fun _ => [])
           ["peerslave"; "slaves.conf"] "slaves.conf"); reflexivity.
Defined.

(** ** The supervisor starts its slaves *)

Lemma insert_middle (done rest : list Z) (x y : Z) :
  <[length done := y]> (done ++ x :: rest) = done ++ y :: rest.
Proof. induction done as [|d done IH]; cbn; [reflexivity|]. f_equal. exact IH. Qed.

(** A pass at a configuration without a child, when [fork] succeeds. *)
Lemma supervise_step_fork (t : sup_tick) (s : supervisor) (done rest : list Z) :
  sup_pids s = done ++ 0 :: rest ->
  sup_cconf s = length done ->
  the_fork t > 0 ->
  supervise_step t s
  = (Monitoring
       {| sup_hostid := to_uint (sup_hostid s + 1);
          sup_pids := done ++ the_fork t :: rest;
          sup_cconf := match rest with [] => 0 | _ :: _ => S (length done) end |},
     fork_pass (to_uint (sup_hostid s + 1))).
Proof.
  intros Hpids Hcconf Ht.
  destruct s as [hid pids cconf]. cbn in Hpids, Hcconf. subst.
  unfold supervise_step. cbn [sup_pids sup_cconf sup_hostid].
  rewrite (list_lookup_middle done rest 0 (length done) eq_refl).
  change (default 0 (Some 0)) with 0. unfold check_child.
  change (negb (0 =? 0)) with false. cbv beta iota zeta.
  rewrite !insert_middle. change (0 =? 0) with true. cbv iota.
  destruct (Z.geb_spec (the_fork t) 0); [|lia].
  destruct (Z.eqb_spec (the_fork t) 0); [lia|].
  unfold next_cconf. cbn [sup_pids sup_cconf].
  rewrite length_app. cbn [length].
  unfold fork_pass. cbn [app].
  destruct rest as [|r rest]; cbn [length].
  - destruct (Nat.ltb_spec (S (length done)) (length done + 1)); [lia|].
    reflexivity.
  - destruct (Nat.ltb_spec (S (length done)) (length done + S (S (length rest))));
      [|lia].
    reflexivity.
Qed.

Lemma last_cons_default (x d d' : Z) (l : list Z) :
  List.last (x :: l) d = List.last (x :: l) d'.
Proof.
  revert x. induction l as [|y l IH]; intros x; [reflexivity|].
  change (List.last (y :: l) d = List.last (y :: l) d'). apply IH.
Qed.

Lemma supervise_monitoring (t : sup_tick) (ticks : list sup_tick)
    (s s' : supervisor) (tr : list event) :
  supervise_step t s = (Monitoring s', tr) ->
  supervise (t :: ticks) s
  = ((supervise ticks s').1, tr ++ (supervise ticks s').2).
Proof.
  intros H. cbn [supervise]. rewrite H.
  destruct (supervise ticks s') as [r tr']. reflexivity.
Qed.

Lemma supervise_starts (ticks : list sup_tick) (t : sup_tick)
    (done : list Z) (s : supervisor) :
  sup_pids s = done ++ repeat 0 (S (length ticks)) ->
  sup_cconf s = length done ->
  Forall (fun t => the_fork t > 0) (t :: ticks) ->
  supervise (t :: ticks) s
  = (Monitoring
       {| sup_hostid := List.last (ids_from (sup_hostid s) (S (length ticks)))
                                  (sup_hostid s);
          sup_pids := done ++ map the_fork (t :: ticks);
          sup_cconf := 0 |},
     flat_map fork_pass (ids_from (sup_hostid s) (S (length ticks)))).
Proof.
  revert t done s.
  induction ticks as [|t' ticks IH]; intros t done s Hpids Hcconf Hforks;
    inversion Hforks as [|? ? Ht Hrest]; subst;
    rewrite (supervise_monitoring t _ s _ _
               (supervise_step_fork t s done _ Hpids Hcconf Ht)).
  - reflexivity.
  - cbn [repeat length].
    rewrite (IH t' (done ++ [the_fork t])).
    + cbn [fst snd sup_hostid ids_from flat_map List.last map].
      rewrite <- !app_assoc. cbn [app]. do 3 f_equal.
      destruct (ids_from _ (length ticks)) as [|z l];
        [reflexivity|apply last_cons_default].
    + cbn [sup_pids]. rewrite <- app_assoc. reflexivity.
    + cbn [sup_cconf]. rewrite length_app. cbn. lia.
    + exact Hrest.
Qed.

(** A supervisor of [n] slaves (n > 0) that has not yet started any of
    them starts them in [n] passes, in the order of the configuration
    list, when every [fork] succeeds: it makes no call of [waitpid],
    forks once per pass with the next host id, stores each child's pid in
    its configuration, and after the last configuration it is back at the
    first one. *)
Theorem supervisor_starts_all (ticks : list sup_tick) (s : supervisor) :
  ticks <> [] ->
  sup_pids s = repeat 0 (length ticks) ->
  sup_cconf s = 0%nat ->
  Forall (fun t => the_fork t > 0) ticks ->
  supervise ticks s
  = (Monitoring
       {| sup_hostid := List.last (ids_from (sup_hostid s) (length ticks))
                             (sup_hostid s);
          sup_pids := map the_fork ticks;
          sup_cconf := 0 |},
     flat_map fork_pass (ids_from (sup_hostid s) (length ticks))).
Proof.
  intros Hne Hpids Hcconf Hforks.
  destruct ticks as [|t ticks]; [contradiction|].
  apply (supervise_starts ticks t [] s); assumption.
Qed.

Lemma supervisor_starts_all_witness :
  supervise [ex_sup_tick 101; ex_sup_tick 102] ex_supervisor
  = (Monitoring {| sup_hostid := 9; sup_pids := [101; 102]; sup_cconf := 0 |},
     [Lock mutexhost; Unlock mutexhost; Fork 8; ThreadSleep;
      Lock mutexhost; Unlock mutexhost; Fork 9; ThreadSleep]).
Proof.
  apply (supervisor_starts_all [ex_sup_tick 101; ex_sup_tick 102] ex_supervisor).
  - discriminate.
  - reflexivity.
  - reflexivity.
  - repeat constructor.
Defined.

(** ** The log mask *)

Lemma testbit_ones_upto (k pri : Z) :
  0 <= k -> Z.testbit (Z.ones k) pri = (0 <=? pri) && (pri <=? k - 1).
Proof.
  intros Hk. rewrite Z.testbit_ones by exact Hk.
  destruct (Z.leb_spec 0 pri); cbn; [|reflexivity].
  destruct (Z.ltb_spec pri k); destruct (Z.leb_spec pri (k - 1)); try reflexivity; lia.
Qed.

(** A message of priority [pri] passes the log mask exactly when
    [0 <= pri <= 7 - level], where [level] is the value of the [verbose]
    option if it is one of 0..7, and 4 otherwise (no option, or a value
    that the [switch] does not know): the higher the level the fewer the
    messages, level 0 lets every priority pass, level 7 only [LOG_EMERG],
    and the mask that [main] sets at its start is the one of level 4, as
    the comment in the source says. *)
Theorem logmask_levels (syslog_level : option Z) (pri : Z) :
  let level :=
    match syslog_level with
    | Some l => if (0 <=? l) && (l <=? 7) then l else 4
    | None => 4
    end in
  Z.testbit (logmask_after syslog_level) pri = (0 <=? pri) && (pri <=? 7 - level).
Proof.
  cbv zeta.
  assert (Hdef : Z.testbit default_logmask pri = (0 <=? pri) && (pri <=? 7 - 4)).
  { change default_logmask with (Z.ones 4). apply testbit_ones_upto. lia. }
  destruct syslog_level as [l|]; [|exact Hdef]. cbn [logmask_after].
  destruct (Z.leb_spec 0 l); cbn [andb].
  - destruct (Z.leb_spec l 7).
    + assert (Hl : l = 0 \/ l = 1 \/ l = 2 \/ l = 3 \/ l = 4 \/ l = 5 \/ l = 6
                   \/ l = 7) by lia.
      destruct Hl as [-> | [-> | [-> | [-> | [-> | [-> | [-> | ->]]]]]]].
      * change (default _ _) with (Z.ones 8). apply testbit_ones_upto. lia.
      * change (default _ _) with (Z.ones 7). apply testbit_ones_upto. lia.
      * change (default _ _) with (Z.ones 6). apply testbit_ones_upto. lia.
      * change (default _ _) with (Z.ones 5). apply testbit_ones_upto. lia.
      * change (default _ _) with (Z.ones 4). apply testbit_ones_upto. lia.
      * change (default _ _) with (Z.ones 3). apply testbit_ones_upto. lia.
      * change (default _ _) with (Z.ones 2). apply testbit_ones_upto. lia.
      * change (default _ _) with (Z.ones 1). apply testbit_ones_upto. lia.
    + replace (verbose_logmask l) with (@None Z); [exact Hdef|].
      unfold verbose_logmask.
      repeat match goal with
             | |- context [?a =? ?b] => destruct (Z.eqb_spec a b); [lia|]
             end.
      reflexivity.
  - replace (verbose_logmask l) with (@None Z); [exact Hdef|].
    unfold verbose_logmask.
    repeat match goal with
           | |- context [?a =? ?b] => destruct (Z.eqb_spec a b); [lia|]
           end.
    reflexivity.
Qed.

(** ** The configuration of one slave *)

Lemma blocks_cons (b : block) (bs : list block) (st : settings) :
  blocks (b :: bs) st
  = ((blocks bs (b st).1).1, (b st).2 ++ (blocks bs (b st).1).2).
Proof.
  cbn [blocks]. destruct (b st) as [st1 t1]. cbn [fst snd].
  destruct (blocks bs st1) as [st2 t2]. reflexivity.
Qed.

Lemma blocks_cons_fst (b : block) (bs : list block) (st : settings) :
  (blocks (b :: bs) st).1 = (blocks bs (b st).1).1.
Proof. rewrite blocks_cons. reflexivity. Qed.

Lemma blocks_locking (bs : list block) :
  Forall (fun b : block => forall st, locking spec_rule [] (b st).2 = Some []) bs ->
  forall st, locking spec_rule [] (blocks bs st).2 = Some [].
Proof.
  induction 1 as [|b bs Hb _ IH]; intros st; [reflexivity|].
  rewrite blocks_cons. cbn [snd]. rewrite locking_app, Hb. apply IH.
Qed.

Lemma option_block_locking (o : option string) (b : string -> block) :
  (forall v st, locking spec_rule [] (b v st).2 = Some []) ->
  forall st,
    locking spec_rule []
      ((match o with Some v => b v | None => nothing end) st).2 = Some [].
Proof. intros H st. destruct o; [apply H | reflexivity]. Qed.

(** The configuration takes one mutex at a time and releases it before
    the next statement: never a second mutex, and none is held at the
    end. *)
Theorem configure_locking (atol : string -> Z) (STRLEN : nat)
    (as_enabled : Z -> Z) (cconf : config_t) (st : settings) :
  locking spec_rule [] (configure atol STRLEN as_enabled cconf st).2 = Some [].
Proof.
  unfold configure. apply blocks_locking.
  repeat (apply Forall_cons; split;
          [first [ apply option_block_locking; intros v st'
                 | intros st' ] |]).
  all: try apply Forall_nil.
  all: try reflexivity.
  destruct (conf_matlab cconf); reflexivity.
Qed.

Lemma keep_option {T} (f : settings -> T) (o : option string)
    (b : string -> block) (st : settings) :
  (forall v st, f (b v st).1 = f st) ->
  f ((match o with Some v => b v | None => nothing end) st).1 = f st.
Proof. intros H. destruct o; [apply H | reflexivity]. Qed.

Lemma keep_startcmd {T} (f : settings -> T) (o : option string)
    (STRLEN : nat) (st : settings) :
  (forall v st, f (set_cf_startcmd v st) = f st) ->
  f ((match o with
      | Some v => unlocked (set_cf_startcmd (Some (strncpy STRLEN v)))
      | None => unlocked (set_cf_startcmd (Some (strncpy STRLEN STARTCMD)))
      end) st).1 = f st.
Proof. intros H. destruct o; apply H. Qed.

Ltac keep_blocks :=
  repeat first
    [ rewrite keep_option by (intros; reflexivity)
    | rewrite keep_startcmd by (intros; reflexivity) ].

(** The three policy switches after the configuration.  Giving
    [memavail] switches [smartmem] off, but an explicit [smartmem] option
    is applied later and wins; [cpuavail] and [timavail] do not touch the
    switches. *)
Theorem configure_policy (atol : string -> Z) (STRLEN : nat)
    (as_enabled : Z -> Z) (cconf : config_t) (st : settings) :
  let st' := (configure atol STRLEN as_enabled cconf st).1 in
  cf_smartmem st'
  = match conf_smartmem cconf, conf_memavail cconf with
    | Some v, _ => as_enabled (atol v)
    | None, Some _ => as_enabled 0
    | None, None => cf_smartmem st
    end
  /\ cf_smartcpu st'
     = match conf_smartcpu cconf with
       | Some v => as_enabled (atol v)
       | None => cf_smartcpu st
       end
  /\ cf_smartshare st'
     = match conf_smartshare cconf with
       | Some v => as_enabled (atol v)
       | None => cf_smartshare st
       end.
Proof.
  cbv zeta. unfold configure. rewrite !blocks_cons_fst. cbn [fst blocks].
  split; [|split].
  - keep_blocks.
    destruct (conf_smartmem cconf) as [v|]; [reflexivity|].
    cbn [nothing fst]. keep_blocks.
    destruct (conf_memavail cconf) as [v|]; reflexivity.
  - keep_blocks.
    destruct (conf_smartcpu cconf) as [v|]; [reflexivity|].
    cbn [nothing fst]. keep_blocks.
    destruct (conf_memavail cconf) as [v|]; reflexivity.
  - destruct (conf_smartshare cconf) as [v|]; [keep_blocks; reflexivity|].
    cbn [nothing fst]. keep_blocks.
    destruct (conf_memavail cconf) as [v|]; reflexivity.
Qed.

(** ** The access lists *)

Lemma allow_loop_rev (STRLEN : nat) (strs : list string) (l : list copied) :
  allow_loop STRLEN strs l = rev (map (strncpy STRLEN) strs) ++ l.
Proof.
  revert l. induction strs as [|str strs IH]; intros l; [reflexivity|].
  cbn [allow_loop map rev]. rewrite IH, <- app_assoc. reflexivity.
Qed.

Lemma tokens_of_pieces (delim : ascii) (s tok : list ascii) :
  ~ In delim tok ->
  Forall (fun t => t <> [] /\ ~ In delim t) (tokens_of delim s tok).
Proof.
  revert tok. induction s as [|c s IH]; intros tok Htok; cbn [tokens_of].
  - destruct tok as [|x tok]; [constructor|].
    constructor; [|constructor]. split.
    + intros E. apply (f_equal (@length ascii)) in E.
      rewrite length_rev in E. discriminate E.
    + rewrite <- in_rev. exact Htok.
  - destruct (Ascii.eqb_spec c delim) as [->|Hne].
    + destruct tok as [|x tok]; [apply IH; intros []|].
      constructor; [|apply IH; intros []]. split.
      * intros E. apply (f_equal (@length ascii)) in E.
        rewrite length_rev in E. discriminate E.
      * rewrite <- in_rev. exact Htok.
    + apply IH. intros [E|E]; [apply Hne; exact E|apply Htok; exact E].
Qed.

Lemma tokens_of_concat (delim : ascii) (s tok : list ascii) :
  concat (tokens_of delim s tok)
  = rev tok ++ List.filter (fun c => negb (Ascii.eqb c delim)) s.
Proof.
  revert tok. induction s as [|c s IH]; intros tok; cbn [tokens_of List.filter].
  - destruct tok; cbn [concat]; rewrite ?app_nil_r; reflexivity.
  - destruct (Ascii.eqb c delim); cbn [negb].
    + destruct tok as [|x tok]; [apply IH|].
      cbn [concat]. rewrite IH. reflexivity.
    + rewrite IH. cbn [rev]. rewrite <- app_assoc. reflexivity.
Qed.

(** The names that [strtok] finds in an option are its pieces between
    commas: none is empty, none holds a comma, and together they are the
    option without its commas. *)
Lemma strtok_all_names (v : string) :
  Forall (fun name => name <> ""%string
                      /\ ~ In ","%char (String.list_ascii_of_string name))
         (strtok_all v ",")
  /\ concat (map String.list_ascii_of_string (strtok_all v ","))
     = List.filter (fun c => negb (Ascii.eqb c ","))
         (String.list_ascii_of_string v).
Proof.
  unfold strtok_all. split.
  - apply Forall_map.
    eapply Forall_impl; [apply (tokens_of_pieces _ _ []); intros []|].
    intros t [Hne Hin]. cbn beta. rewrite String.list_ascii_of_string_of_list_ascii.
    split; [|exact Hin].
    intros E. apply Hne. apply (f_equal String.list_ascii_of_string) in E.
    rewrite String.list_ascii_of_string_of_list_ascii in E. exact E.
  - rewrite map_map.
    rewrite (map_ext _ (fun t => t)), map_id
      by (intros t; apply String.list_ascii_of_string_of_list_ascii).
    apply (tokens_of_concat _ _ []).
Qed.

(** Each access list gets the names of its option in front of the
    entries it had, the name that stands last in the option first; the
    names are the pieces of the option between commas that are not empty
    (so [a,,b] gives two names), each copied with [strncpy]; without the
    option the list is left as it is.  No other option changes an access
    list. *)
Theorem configure_allow_lists (atol : string -> Z) (STRLEN : nat)
    (as_enabled : Z -> Z) (cconf : config_t) (st : settings) :
  let st' := (configure atol STRLEN as_enabled cconf st).1 in
  let added (o : option string) : list copied :=
    match o with
    | Some v => rev (map (strncpy STRLEN) (strtok_all v ","))
    | None => []
    end in
  (cf_userlist st' = added (conf_allowuser cconf) ++ cf_userlist st
   /\ cf_hostlist st' = added (conf_allowhost cconf) ++ cf_hostlist st
   /\ cf_grouplist st' = added (conf_allowgroup cconf) ++ cf_grouplist st)
  /\ forall v,
       Forall (fun name => name <> ""%string
                           /\ ~ In ","%char (String.list_ascii_of_string name))
              (strtok_all v ",")
       /\ concat (map String.list_ascii_of_string (strtok_all v ","))
          = List.filter (fun c => negb (Ascii.eqb c ","))
              (String.list_ascii_of_string v).
Proof.
  cbv zeta. split; [|exact strtok_all_names].
  unfold configure. rewrite !blocks_cons_fst. cbn [fst blocks].
  split; [|split].
  - keep_blocks. destruct (conf_allowuser cconf) as [v|].
    + cbn [unlocked fst cf_userlist set_cf_userlist]. rewrite allow_loop_rev.
      f_equal. keep_blocks. reflexivity.
    + cbn [nothing fst app]. keep_blocks. reflexivity.
  - keep_blocks. destruct (conf_allowhost cconf) as [v|].
    + cbn [unlocked fst cf_hostlist set_cf_hostlist]. rewrite allow_loop_rev.
      f_equal. keep_blocks. reflexivity.
    + cbn [nothing fst app]. keep_blocks. reflexivity.
  - keep_blocks. destruct (conf_allowgroup cconf) as [v|].
    + cbn [unlocked fst cf_grouplist set_cf_grouplist]. rewrite allow_loop_rev.
      f_equal. keep_blocks. reflexivity.
    + cbn [nothing fst app]. keep_blocks. reflexivity.
Qed.

(** ** The command that starts the engine *)

Lemma length_substring_0 (n : nat) (s : string) :
  (n <= String.length s)%nat -> String.length (String.substring 0 n s) = n.
Proof.
  revert n. induction s as [|c s IH]; intros n Hn.
  - cbn in Hn. assert (n = 0%nat) as -> by lia. reflexivity.
  - destruct n as [|n]; [reflexivity|].
    cbn. f_equal. apply IH. cbn in Hn. lia.
Qed.

Lemma prefix_substring_0 (n : nat) (s : string) :
  String.prefix (String.substring 0 n s) s = true.
Proof.
  revert n. induction s as [|c s IH]; intros n.
  - destruct n; reflexivity.
  - destruct n as [|n]; [reflexivity|].
    cbn. destruct (ascii_dec c c) as [_|Hne]; [apply IH|contradiction].
Qed.

(** After the configuration [startcmd] is never [NULL]: it is a copy of
    the [matlab] option, or of the default command when the option is not
    given.  The copy goes with [strncpy] into [STRLEN] bytes, so it is a
    string exactly when the command is shorter than [STRLEN]; a command
    of [STRLEN] characters or more leaves its first [STRLEN] characters
    and no terminator for [engOpen] to read.  The engine timeout is the
    [timeout] option taken modulo 2^32, or stays as it was. *)
Theorem configure_startcmd (atol : string -> Z) (STRLEN : nat)
    (as_enabled : Z -> Z) (cconf : config_t) (st : settings) :
  let st' := (configure atol STRLEN as_enabled cconf st).1 in
  let cmd := default STARTCMD (conf_matlab cconf) in
  match cf_startcmd st' with
  | Some (Terminated s) => s = cmd /\ (String.length cmd < STRLEN)%nat
  | Some (Unterminated first) =>
      (STRLEN <= String.length cmd)%nat
      /\ String.length first = STRLEN
      /\ String.prefix first cmd = true
  | None => False
  end
  /\ cf_enginetimeout st'
     = match conf_timeout cconf with
       | Some v => to_uint (atol v)
       | None => cf_enginetimeout st
       end.
Proof.
  cbv zeta. unfold configure. rewrite !blocks_cons_fst. cbn [fst blocks].
  split.
  - keep_blocks.
    assert (H : forall cmd,
      match strncpy STRLEN cmd with
      | Terminated s => s = cmd /\ (String.length cmd < STRLEN)%nat
      | Unterminated first =>
          (STRLEN <= String.length cmd)%nat
          /\ String.length first = STRLEN
          /\ String.prefix first cmd = true
      end).
    { intros cmd. unfold strncpy.
      destruct (Nat.ltb_spec (String.length cmd) STRLEN) as [Hlt|Hge].
      - split; [reflexivity|exact Hlt].
      - split; [exact Hge|]. split.
        + apply length_substring_0, Hge.
        + apply prefix_substring_0. }
    destruct (conf_matlab cconf) as [v|]; cbn; apply H.
  - destruct (conf_timeout cconf) as [v|]; [reflexivity|].
    cbn [nothing fst]. keep_blocks.
    destruct (conf_memavail cconf); reflexivity.
Qed.

(** ** The usage message and the table of options *)

(** Finds the line of the usage message that describes an option. *)
Ltac usage_line_at n :=
  apply list_elem_of_omap; eexists; split;
  [apply (list_elem_of_lookup_2 _ n); reflexivity | reflexivity].

Ltac usage_line :=
  cbn [opt_name];
  first [ usage_line_at 6%nat | usage_line_at 7%nat | usage_line_at 8%nat
        | usage_line_at 9%nat | usage_line_at 10%nat | usage_line_at 11%nat
        | usage_line_at 12%nat | usage_line_at 13%nat | usage_line_at 14%nat
        | usage_line_at 15%nat | usage_line_at 16%nat | usage_line_at 17%nat
        | usage_line_at 18%nat | usage_line_at 19%nat | usage_line_at 20%nat
        | usage_line_at 21%nat ].

(** Every option of the table that [getopt_long] is given is described in
    the usage message, whatever the name of the program; the usage
    message describes one more option, [--number], which the table does
    not have. *)
Theorem usage_and_option_table (argv0 : string) :
  Forall (fun o => opt_name o ∈ advertised (print_help argv0)) long_options
  /\ "number"%string ∈ advertised (print_help argv0)
  /\ "number"%string ∉ map opt_name long_options.
Proof.
  split; [|split].
  - unfold long_options.
    repeat (apply Forall_cons; split; [usage_line|]).
    constructor.
  - usage_line.
  - intros H. apply list_elem_of_In in H. vm_compute in H.
    repeat (destruct H as [H|H]; [discriminate H|]). exact H.
Qed.

(** The table and the [switch] agree: every option of the table leads to
    a case of the [switch] (none ends in the PANIC of the default case),
    the one option with a flag is [--help], and each of the cases 1..14
    belongs to exactly one option. *)
Theorem option_table_cases :
  Forall (fun o => forall optarg,
            valid_option (getopt_result o optarg) = true
            /\ (is_flag (getopt_result o optarg) = true <-> opt_name o = "help"%string))
         long_options
  /\ forall c, 1 <= c <= 14 ->
       length (List.filter (fun o => negb (opt_flag o) && (opt_val o =? c))
                 long_options) = 1%nat.
Proof.
  split.
  - repeat (apply Forall_cons; split;
            [intros optarg; split; [reflexivity|];
             split; intros H; first [reflexivity | discriminate H]|]).
    constructor.
  - intros c Hc.
    assert (E : c = 1 \/ c = 2 \/ c = 3 \/ c = 4 \/ c = 5 \/ c = 6 \/ c = 7
                \/ c = 8 \/ c = 9 \/ c = 10 \/ c = 11 \/ c = 12 \/ c = 13
                \/ c = 14) by lia.
    repeat (destruct E as [-> | E]; [reflexivity|]). subst c. reflexivity.
Qed.
